(** * Come Grab a Bite (來覓食): the decision core of [src/App.tsx]

    A shallow embedding of the pure helpers of [App.tsx] ([clamp],
    [computeTags], [preferenceText], [filterPlaces], [buildMapsQuery],
    [buildMapsSearchUrl]), of the [useLocalStorageLog] hook and of the event
    handlers of the [App] component, followed by the properties the
    specification states about them.

    Conventions.
    - A JavaScript number is an IEEE 754 binary64 value: Rocq's primitive
      [float].  A decimal literal such as [0.55] denotes, here as in
      JavaScript, the nearest binary64 value.
    - A string is a [string] holding the UTF-8 bytes of the source literal.
    - [T | null] is [option T]; a value that may be [undefined] is an
      [option] too.
    - What the platform decides (the random source, the clock, geolocation,
      the storage and the number and URI formatters) is an explicit input. *)

From Stdlib Require Import List String Ascii Bool ZArith Lia Floats.
From Stdlib Require Uint63.
Import ListNotations.

Set Warnings "-inexact-float".

Open Scope string_scope.

(* ------------------------------------------------------------------ *)
(** ** Data model *)

Inductive Temp := hot | cold.
Inductive Form := soup | dry.
Inductive Speed := fast | sit.
Inductive Style := light | rich.
Inductive Price := budget | mid.

Module Screen.
Inductive t := home | choose | state | recommend | energy | log.
End Screen.

Definition Temp_eqb (a b : Temp) : bool :=
  match a, b with hot, hot | cold, cold => true | _, _ => false end.

Definition Form_eqb (a b : Form) : bool :=
  match a, b with soup, soup | dry, dry => true | _, _ => false end.

Definition Speed_eqb (a b : Speed) : bool :=
  match a, b with fast, fast | sit, sit => true | _, _ => false end.

Definition Style_eqb (a b : Style) : bool :=
  match a, b with light, light | rich, rich => true | _, _ => false end.

Module Place.
Record t := {
  id : string;
  name : string;
  type : Temp;
  style : Style;
  form : Form;
  speed : Speed;
  price : Price
}.
End Place.

(** The element type of [filterPlaces]'s result: [{ ...p, distance }]. *)
Module Nearby.
Record t := {
  place : Place.t;
  distance : string
}.
End Nearby.

Inductive Mode := satisfied | stable | chaos.

Module Sig.
Record t := {
  warmth : float;
  mode : Mode;
  temp : option Temp;
  form : option Form;
  speed : option Speed;
  richness : float
}.
End Sig.

Module LogEntry.
Record t := {
  id : string;
  at_ : string;
  tags : list string;
  choiceText : string;
  sig : option Sig.t
}.
End LogEntry.

Definition LS_KEY : string := "whatnow_energy_log_v1".

Definition mockPlaces : list Place.t :=
  [ Place.Build_t "p1" "暖湯麵館" hot light soup sit budget;
    Place.Build_t "p2" "炙燒丼飯" hot rich dry fast mid;
    Place.Build_t "p3" "清爽沙拉碗" cold light dry fast mid;
    Place.Build_t "p4" "麻辣鍋小攤" hot rich soup sit mid;
    Place.Build_t "p5" "咖哩飯專門" hot rich dry sit mid;
    Place.Build_t "p6" "便當快取" hot light dry fast budget;
    Place.Build_t "p7" "日式烏龍" hot light soup fast mid;
    Place.Build_t "p8" "冰涼麵食" cold light dry fast budget ].

(* ------------------------------------------------------------------ *)
(** ** The platform *)

(** What [JSON.parse] can return, as far as the program looks at it: an
    array of log entries, [null], or any other value (a number, a string,
    a boolean, an object, an array of something else).  The assertion
    [as LogEntry[]] of the source is gone when the program runs: it checks
    nothing, and the initialiser of the log returns whichever of these
    values was stored. *)
Module Parsed.
Inductive t :=
| array (entries : list LogEntry.t)
| null
| other.
End Parsed.

(** The built-ins the program calls and does not define.  [JSON_parse]
    answers [None] where [JSON.parse] throws. *)
Class Host := {
  Number_toString : float -> string;
  encodeURIComponent : string -> string;
  JSON_parse : string -> option Parsed.t;
  JSON_stringify : list LogEntry.t -> string
}.

(** The two readings of the clock [saveEnergy] makes: [Date.now()] and
    [new Date().toISOString()]. *)
Record Clock := {
  Date_now : float;
  nowISO : string
}.

(** A non-negative integer as a number ([idx], [arr.length]). *)
Definition Number_of_nat (n : nat) : float :=
  PrimFloat.of_uint63 (Uint63.of_Z (Z.of_nat n)).

(** [Math.max] and [Math.min] on two arguments: NaN is contagious and
    [+0] is larger than [-0]. *)
Definition Math_max (x y : float) : float :=
  if PrimFloat.is_nan x || PrimFloat.is_nan y then PrimFloat.nan
  else if (x <? y)%float then y
  else if (y <? x)%float then x
  else if PrimFloat.get_sign x then y else x.

Definition Math_min (x y : float) : float :=
  if PrimFloat.is_nan x || PrimFloat.is_nan y then PrimFloat.nan
  else if (x <? y)%float then x
  else if (y <? x)%float then y
  else if PrimFloat.get_sign x then x else y.

(** [Math.floor].  Its result is an integer-valued number, NaN or an
    infinity; the integer is given as a [Z] ([-0] and [+0] both as [0],
    which is also how a property key reads them) and the rest as [None]. *)
Definition Math_floor (x : float) : option Z :=
  match Prim2SF x with
  | S754_zero _ => Some 0%Z
  | S754_finite s m e =>
      let v := if s then Z.neg m else Z.pos m in
      Some (match e with
            | Z.neg p => Z.div v (Z.pow_pos 2 p)
            | _ => Z.mul v (Z.pow 2 e)
            end)
  | S754_infinity _ | S754_nan => None
  end.

(** [arr[i]] for a number [i] as [Math.floor] returns it: the element at
    an index inside the array, [undefined] anywhere else. *)
Definition index {A : Type} (arr : list A) (i : option Z) : option A :=
  match i with
  | Some z => if (0 <=? z)%Z then nth_error arr (Z.to_nat z) else None
  | None => None
  end.

(** [arr.includes(s)] on an array of strings. *)
Definition includes (arr : list string) (s : string) : bool :=
  existsb (String.eqb s) arr.

(** [arr.map((p, idx) => f(p, idx))]. *)
Fixpoint mapi_from {A B : Type} (f : A -> nat -> B) (idx : nat) (arr : list A) : list B :=
  match arr with
  | [] => []
  | p :: rest => f p idx :: mapi_from f (S idx) rest
  end.

Definition mapi {A B : Type} (f : A -> nat -> B) (arr : list A) : list B :=
  mapi_from f 0 arr.

(** [arr.slice(0, n)]. *)
Definition slice0 {A : Type} (n : nat) (arr : list A) : list A := firstn n arr.

(** [v ? x : y] on a value that is an enumeration string or [null]. *)
Definition nonempty_opt {A : Type} (v : option A) : bool :=
  match v with Some _ => true | None => false end.

(** [arr.length ? x : y]. *)
Definition nonempty {A : Type} (arr : list A) : bool :=
  match arr with [] => false | _ :: _ => true end.

(* ------------------------------------------------------------------ *)
(** ** Pure helpers *)

(** [clamp(n, a, b)]. *)
Definition clamp (n a b : float) : float := Math_min b (Math_max a n).

Record Derived := {
  tags : list string;
  style : Style
}.

Definition temp_label (t : Temp) : string :=
  match t with hot => "熱食" | cold => "冷食" end.

Definition form_label (f : Form) : string :=
  match f with soup => "湯的" | dry => "乾的" end.

Definition style_label (s : Style) : string :=
  match s with rich => "重口" | light => "清爽" end.

Definition speed_label (s : Speed) : string :=
  match s with fast => "快點" | sit => "坐下來吃" end.

(** [t.push(x)] guarded by [if (v)]. *)
Definition push_if {A : Type} (v : option A) (label : A -> string) (t : list string) : list string :=
  match v with
  | Some a => (t ++ [label a])%list
  | None => t
  end.

Definition computeTags (temp : option Temp) (form : option Form) (richness : float)
  (speed : option Speed) : Derived :=
  let style := if (0.55 <=? richness)%float then rich else light in
  let t := [] in
  let t := push_if temp temp_label t in
  let t := push_if form form_label t in
  let t := (t ++ [style_label style])%list in
  let t := push_if speed speed_label t in
  {| tags := t; style := style |}.

Definition preferenceText (richness : float) : string :=
  if (richness <? 0.4)%float then "清爽一點"
  else if (0.6 <? richness)%float then "重口一點"
  else "都可以".

(** The four predicates of [filterPlaces], one per [.filter]. *)
Definition temp_ok (temp : option Temp) (p : Place.t) : bool :=
  match temp with Some t => Temp_eqb (Place.type p) t | None => true end.

Definition form_ok (form : option Form) (p : Place.t) : bool :=
  match form with Some f => Form_eqb (Place.form p) f | None => true end.

Definition speed_ok (speed : option Speed) (p : Place.t) : bool :=
  match speed with Some s => Speed_eqb (Place.speed p) s | None => true end.

Definition style_ok (style : Style) (p : Place.t) : bool :=
  Style_eqb (Place.style p) style.

Definition candidates (temp : option Temp) (form : option Form) (speed : option Speed)
  (style : Style) : list Place.t :=
  filter (style_ok style)
    (filter (speed_ok speed)
      (filter (form_ok form)
        (filter (temp_ok temp) mockPlaces))).

Definition fallback (temp : option Temp) : list Place.t :=
  filter (temp_ok temp) mockPlaces.

(* ------------------------------------------------------------------ *)
(** ** The random source

    [Math.random()] is read from a source given from outside: the [n]-th
    call of a computation answers [src n].  A computation threads the
    number of calls made so far. *)

Definition RandomSource := nat -> float.

Definition Rnd (A : Type) : Type := RandomSource -> nat -> A * nat.

Definition ret {A : Type} (a : A) : Rnd A := fun _ n => (a, n).

Definition bind {A B : Type} (m : Rnd A) (k : A -> Rnd B) : Rnd B :=
  fun src n => let (a, n') := m src n in k a src n'.

Notation "x <- m ;; k" := (bind m (fun x => k))
  (at level 61, m at next level, right associativity).

Definition Math_random : Rnd float := fun src n => (src n, S n).

(** The value of a computation that makes the first call of the source. *)
Definition run {A : Type} (m : Rnd A) (src : RandomSource) : A := fst (m src 0).

(** [arr[Math.floor(Math.random() * arr.length)]]. *)
Definition pick {A : Type} (arr : list A) : Rnd (option A) :=
  u <- Math_random ;;
  ret (index arr (Math_floor (u * Number_of_nat (List.length arr))%float)).

(* ------------------------------------------------------------------ *)
(** ** The query builder *)

(** [Boolean(x)] on a string or [undefined]. *)
Definition Boolean (x : option string) : bool :=
  match x with
  | Some s => negb (String.eqb s "")
  | None => false
  end.

Definition value_eqb (x y : option string) : bool :=
  match x, y with
  | Some a, Some b => String.eqb a b
  | None, None => true
  | _, _ => false
  end.

(** [Array.from(new Set(xs))]: the first occurrence of every value, in
    the order of insertion. *)
Definition Set_add (set : list (option string)) (x : option string) : list (option string) :=
  if existsb (value_eqb x) set then set else (set ++ [x])%list.

Definition Array_from_Set (xs : list (option string)) : list (option string) :=
  fold_left Set_add xs [].

(** [arr.join(sep)]; an [undefined] element is written as the empty string. *)
Definition text_of (x : option string) : string :=
  match x with Some s => s | None => "" end.

Fixpoint join (sep : string) (arr : list (option string)) : string :=
  match arr with
  | [] => ""
  | [x] => text_of x
  | x :: rest => text_of x ++ sep ++ join sep rest
  end.

(** [if (c) pool.push(...items)]. *)
Definition push_when (c : bool) (items : list string) (pool : list string) : list string :=
  if c then (pool ++ items)%list else pool.

Definition keywords_rich_soup : list string := ["麻辣鍋"; "牛肉麵"; "拉麵"; "酸辣湯"].
Definition keywords_light_soup : list string := ["清湯麵"; "粥"; "味噌湯"; "烏龍麵"].
Definition keywords_rich_dry : list string := ["燒肉飯"; "咖哩飯"; "丼飯"; "炸雞"].
Definition keywords_light_dry : list string := ["沙拉"; "健康餐盒"; "越南河粉"; "涼麵"].
Definition keywords_cold : list string := ["沙拉"; "涼麵"; "生魚片"].
Definition keywords_generic : list string := ["餐廳"; "小吃"; "便當"; "麵"].

(** The [pool] of [buildMapsQuery] as it stands when the picks are made. *)
Definition keywordPool (tags : list string) : list string :=
  let hasHot := includes tags "熱食" in
  let hasCold := includes tags "冷食" in
  let hasSoup := includes tags "湯的" in
  let hasDry := includes tags "乾的" in
  let hasRich := includes tags "重口" in
  let hasLight := includes tags "清爽" in
  let pool := [] in
  let pool := push_when (hasRich && hasSoup && hasHot) keywords_rich_soup pool in
  let pool := push_when (hasLight && hasSoup && hasHot) keywords_light_soup pool in
  let pool := push_when (hasRich && hasDry && hasHot) keywords_rich_dry pool in
  let pool := push_when (hasLight && hasDry) keywords_light_dry pool in
  let pool := push_when hasCold keywords_cold pool in
  let pool := push_when (Nat.eqb (List.length pool) 0) keywords_generic pool in
  pool.

Definition buildMapsQuery (tags : list string) : Rnd string :=
  let pool := keywordPool tags in
  a <- pick pool ;;
  r <- Math_random ;;
  b <- (if (0.55 <? r)%float then pick pool else ret (Some "")) ;;
  let uniq := Array_from_Set (filter Boolean [a; b]) in
  ret (join " " uniq).

(* ------------------------------------------------------------------ *)
(** ** The persisted log: [useLocalStorageLog]

    A call that may throw answers a [Result]; [try_catch] is
    [try { body } catch { handler }]. *)

Inductive Result (A : Type) : Type :=
| Ok (a : A)
| Throw.

Arguments Ok {A} a.
Arguments Throw {A}.

Definition try_catch {A : Type} (body handler : Result A) : Result A :=
  match body with
  | Ok a => Ok a
  | Throw => handler
  end.

Definition and_then {A B : Type} (r : Result A) (k : A -> Result B) : Result B :=
  match r with
  | Ok a => k a
  | Throw => Throw
  end.

(** [localStorage]: the stored items, and whether reading and writing
    are allowed (a read or a write that is not throws). *)
Record LocalStorage := {
  items : string -> option string;
  readable : bool;
  writable : bool
}.

Definition getItem (ls : LocalStorage) (key : string) : Result (option string) :=
  if readable ls then Ok (items ls key) else Throw.

Definition setItem (ls : LocalStorage) (key value : string) : Result LocalStorage :=
  if writable ls
  then Ok {| items := fun k => if String.eqb k key then Some value else items ls k;
             readable := readable ls;
             writable := writable ls |}
  else Throw.

Section WithHost.
Context {host : Host}.

(** The template [`${(idx + 1) * 0.4} km`]. *)
Definition distance_at (idx : nat) : string :=
  Number_toString ((Number_of_nat idx + 1) * 0.4)%float ++ " km".

Definition filterPlaces (temp : option Temp) (form : option Form) (speed : option Speed)
  (style : Style) : list Nearby.t :=
  let candidates := candidates temp form speed style in
  let fallback := fallback temp in
  mapi (fun p idx => {| Nearby.place := p; Nearby.distance := distance_at idx |})
    (slice0 8 (if nonempty candidates then candidates else fallback)).

(** [`https://www.google.com/maps/search/${q}/@${lat},${lng},15z`]. *)
Definition buildMapsSearchUrl (lat lng : float) (query : string) : string :=
  let q := encodeURIComponent query in
  "https://www.google.com/maps/search/" ++ q ++ "/@" ++ Number_toString lat ++ ","
    ++ Number_toString lng ++ ",15z".

(** The address the map action opens when it has no coordinates. *)
Definition plainSearchUrl (query : string) : string :=
  "https://www.google.com/maps/search/" ++ encodeURIComponent query.

(** The initialiser of the [log] state:
    [raw ? (JSON.parse(raw) as LogEntry[]) : []] inside [try], and [[]] in
    [catch].  What [JSON.parse] returns is returned as it is. *)
Definition useLocalStorageLog_init (ls : LocalStorage) : Result Parsed.t :=
  try_catch
    (and_then (getItem ls LS_KEY) (fun raw =>
       match raw with
       | Some r =>
           if String.eqb r "" then Ok (Parsed.array [])
           else match JSON_parse r with
                | Some value => Ok value
                | None => Throw
                end
       | None => Ok (Parsed.array [])
       end))
    (Ok (Parsed.array [])).

(** The effect that runs after a render in which [log] changed. *)
Definition useLocalStorageLog_effect (ls : LocalStorage) (log : list LogEntry.t)
  : Result LocalStorage :=
  try_catch (setItem ls LS_KEY (JSON_stringify log)) (Ok ls).

(** What follows a render in which [log] changed: the effect runs, the
    state of the component is what it was. *)
Definition commit {A : Type} (ls : LocalStorage) (log : list LogEntry.t) (state : A)
  : Result (LocalStorage * A) :=
  and_then (useLocalStorageLog_effect ls log) (fun ls' => Ok (ls', state)).

(* ------------------------------------------------------------------ *)
(** ** The [App] component

    [App] holds the state of the component: the [useState] cells and the
    [pressTimer] ref ([true] while a timeout is scheduled). *)

Record App := {
  log : list LogEntry.t;
  screen : Screen.t;
  chooseStep : Z;
  temp : option Temp;
  form : option Form;
  richness : float;
  speed : option Speed;
  pressTimer : bool;
  pressing : bool;
  geoStatus : string
}.

Definition totalChooseSteps : Z := 3.

Definition setLog (v : list LogEntry.t) (a : App) : App :=
  {| log := v; screen := screen a; chooseStep := chooseStep a; temp := temp a;
     form := form a; richness := richness a; speed := speed a;
     pressTimer := pressTimer a; pressing := pressing a; geoStatus := geoStatus a |}.

Definition setScreen (v : Screen.t) (a : App) : App :=
  {| log := log a; screen := v; chooseStep := chooseStep a; temp := temp a;
     form := form a; richness := richness a; speed := speed a;
     pressTimer := pressTimer a; pressing := pressing a; geoStatus := geoStatus a |}.

Definition setChooseStep (v : Z) (a : App) : App :=
  {| log := log a; screen := screen a; chooseStep := v; temp := temp a;
     form := form a; richness := richness a; speed := speed a;
     pressTimer := pressTimer a; pressing := pressing a; geoStatus := geoStatus a |}.

Definition setTemp (v : option Temp) (a : App) : App :=
  {| log := log a; screen := screen a; chooseStep := chooseStep a; temp := v;
     form := form a; richness := richness a; speed := speed a;
     pressTimer := pressTimer a; pressing := pressing a; geoStatus := geoStatus a |}.

Definition setForm (v : option Form) (a : App) : App :=
  {| log := log a; screen := screen a; chooseStep := chooseStep a; temp := temp a;
     form := v; richness := richness a; speed := speed a;
     pressTimer := pressTimer a; pressing := pressing a; geoStatus := geoStatus a |}.

Definition setRichness (v : float) (a : App) : App :=
  {| log := log a; screen := screen a; chooseStep := chooseStep a; temp := temp a;
     form := form a; richness := v; speed := speed a;
     pressTimer := pressTimer a; pressing := pressing a; geoStatus := geoStatus a |}.

Definition setSpeed (v : option Speed) (a : App) : App :=
  {| log := log a; screen := screen a; chooseStep := chooseStep a; temp := temp a;
     form := form a; richness := richness a; speed := v;
     pressTimer := pressTimer a; pressing := pressing a; geoStatus := geoStatus a |}.

Definition setPressTimer (v : bool) (a : App) : App :=
  {| log := log a; screen := screen a; chooseStep := chooseStep a; temp := temp a;
     form := form a; richness := richness a; speed := speed a;
     pressTimer := v; pressing := pressing a; geoStatus := geoStatus a |}.

Definition setPressing (v : bool) (a : App) : App :=
  {| log := log a; screen := screen a; chooseStep := chooseStep a; temp := temp a;
     form := form a; richness := richness a; speed := speed a;
     pressTimer := pressTimer a; pressing := v; geoStatus := geoStatus a |}.

Definition setGeoStatus (v : string) (a : App) : App :=
  {| log := log a; screen := screen a; chooseStep := chooseStep a; temp := temp a;
     form := form a; richness := richness a; speed := speed a;
     pressTimer := pressTimer a; pressing := pressing a; geoStatus := v |}.

(** The state of the first render, [log] being what the storage gave. *)
Definition initialApp (entries : list LogEntry.t) : App :=
  {| log := entries; screen := Screen.home; chooseStep := 0; temp := None;
     form := None; richness := 0.5; speed := None;
     pressTimer := false; pressing := false; geoStatus := "" |}.

(** How the first render ends.  It reads [log.length] for the top bar
    ([showLog={log.length > 0}]): with an array of entries the component
    is [started]; with [null] reading the property throws a [TypeError]
    ([renderThrows]); with any other value the read goes through, and the
    component runs on a log that is not an array of entries, which the
    rest of this development does not describe ([illTyped]).  (The
    initialiser runs inside the render, so if it threw the render would;
    by its [catch] it never does.) *)
Inductive Mounted :=
| started (a : App)
| renderThrows
| illTyped.

Definition mount (ls : LocalStorage) : Mounted :=
  match useLocalStorageLog_init ls with
  | Ok (Parsed.array entries) => started (initialApp entries)
  | Ok Parsed.null => renderThrows
  | Ok Parsed.other => illTyped
  | Throw => renderThrows
  end.

(** [derived], [tags] and [filteredPlaces] of a render. *)
Definition derived (a : App) : Derived :=
  computeTags (temp a) (form a) (richness a) (speed a).

Definition filteredPlaces (a : App) : list Nearby.t :=
  filterPlaces (temp a) (form a) (speed a) (style (derived a)).

(** [window.clearTimeout(pressTimer.current); pressTimer.current = null]
    (clearing a timer that is not set changes nothing). *)
Definition clearPressTimer (a : App) : App := setPressTimer false a.

Definition resetFlow (a : App) : App :=
  clearPressTimer
    (setPressing false
      (setSpeed None
        (setRichness 0.5
          (setForm None
            (setTemp None
              (setChooseStep 0 a)))))).

Definition goHome (a : App) : App := setScreen Screen.home (resetFlow a).

Definition goBack (a : App) : App :=
  match screen a with
  | Screen.choose =>
      if (chooseStep a =? 0)%Z then goHome a
      else setChooseStep (chooseStep a - 1) a
  | Screen.recommend => setScreen Screen.state a
  | Screen.energy => setScreen Screen.recommend a
  | Screen.log => goHome a
  | _ => goHome a
  end.

Definition startDecision (a : App) : App := setScreen Screen.choose (resetFlow a).

Definition nextChoose (a : App) : App :=
  if (chooseStep a <? totalChooseSteps - 1)%Z
  then setChooseStep (chooseStep a + 1) a
  else setScreen Screen.state a.

Definition randomizeAll (a : App) : Rnd App :=
  u1 <- Math_random ;;
  let t := if (0.5 <? u1)%float then hot else cold in
  u2 <- Math_random ;;
  let f := if (0.5 <? u2)%float then soup else dry in
  u3 <- Math_random ;;
  let sp := if (0.5 <? u3)%float then fast else sit in
  r <- Math_random ;;
  ret (setRichness r (setSpeed (Some sp) (setForm (Some f) (setTemp (Some t) a)))).

Definition handlePressDown (a : App) : App :=
  setPressTimer true (setPressing true a).

(** The callback [handlePressDown] schedules, 650 ms later. *)
Definition pressTimeout (src : RandomSource) (a : App) : App :=
  setScreen Screen.state
    (setPressTimer false
      (setPressing false (run (randomizeAll a) src))).

Definition handlePressUp (a : App) : App :=
  clearPressTimer (setPressing false a).

(** [choiceText || ""]. *)
Definition or_empty (s : string) : string :=
  if String.eqb s "" then "" else s.

(** The entry [saveEnergy] builds.  [render] is the render the call
    belongs to: it gives [tags], [richness], [temp], [form] and [speed]. *)
Definition newEntry (render : App) (clk : Clock) (choiceText : string) : LogEntry.t :=
  {| LogEntry.id := "e_" ++ Number_toString (Date_now clk);
     LogEntry.at_ := nowISO clk;
     LogEntry.tags := tags (derived render);
     LogEntry.choiceText := or_empty choiceText;
     LogEntry.sig :=
       Some {| Sig.warmth := clamp (0.35 + richness render * 0.65)%float 0 1;
               Sig.mode := satisfied;
               Sig.temp := temp render;
               Sig.form := form render;
               Sig.speed := speed render;
               Sig.richness := richness render |} |}.

(** [saveEnergy(choiceText)]: [setLog((prev) => [entry, ...prev])], with
    [prev] the log of the state the update is applied to. *)
Definition saveEnergy (render : App) (clk : Clock) (choiceText : string) (a : App) : App :=
  setLog (newEntry render clk choiceText :: log a) a.

(** *** The map action

    Around the component: the requests made to
    [navigator.geolocation.getCurrentPosition] and not answered yet, each
    with the render and the [query] its callbacks close over, and the
    addresses handed to [window.open], the latest first. *)

Record GeoRequest := {
  render : App;
  query : string
}.

Record World := {
  app : App;
  geoPending : list GeoRequest;
  opened : list string
}.

Definition onApp (f : App -> App) (w : World) : World :=
  {| app := f (app w); geoPending := geoPending w; opened := opened w |}.

Definition window_open (url : string) (w : World) : World :=
  {| app := app w; geoPending := geoPending w; opened := url :: opened w |}.

Definition getCurrentPosition (req : GeoRequest) (w : World) : World :=
  {| app := app w; geoPending := (geoPending w ++ [req])%list; opened := opened w |}.

Definition placeholderText : string := "（前往附近覓食）".

(** [openMapsNearby()]; [geolocation] tells whether [navigator.geolocation]
    is there. *)
Definition openMapsNearby (geolocation : bool) (src : RandomSource) (w : World) : World :=
  let query := run (buildMapsQuery (tags (derived (app w)))) src in
  let w1 := onApp (setGeoStatus "正在取得定位…") w in
  if negb geolocation
  then
    window_open (plainSearchUrl query)
      (onApp (setGeoStatus "這個裝置不支援定位。你仍可手動在地圖搜尋。") w1)
  else
    getCurrentPosition {| render := app w; query := query |} w1.

(** The success callback of a request. *)
Definition geoSuccess (req : GeoRequest) (latitude longitude : float) (clk : Clock)
  (w : World) : World :=
  let url := buildMapsSearchUrl latitude longitude (query req) in
  window_open url
    (onApp (saveEnergy (render req) clk placeholderText)
      (onApp (setGeoStatus ("已準備好：" ++ query req)) w)).

(** The error callback of a request; [code] is [err.code]. *)
Definition geoError (req : GeoRequest) (code : Z) (w : World) : World :=
  let msg := if (code =? 1)%Z then "你拒絕了定位權限。" else "定位失敗。" in
  window_open (plainSearchUrl (query req))
    (onApp (setGeoStatus (msg ++ " 你仍可手動在地圖搜尋。")) w).

(** Taking the [k]-th pending request out of the list. *)
Fixpoint remove_nth {A : Type} (k : nat) (l : list A) : list A :=
  match l, k with
  | [], _ => []
  | _ :: rest, O => rest
  | x :: rest, S k' => x :: remove_nth k' rest
  end.

Definition answer (k : nat) (f : GeoRequest -> World -> World) (w : World) : World :=
  match nth_error (geoPending w) k with
  | Some req =>
      f req {| app := app w; geoPending := remove_nth k (geoPending w); opened := opened w |}
  | None => w
  end.

(** *** Events

    What can happen to the component: a control of the rendered screen is
    used, the long-press timer fires, or a geolocation request is
    answered.  An event carries what the platform decides at that moment. *)

Inductive Event :=
| ClickBack
| ClickOpenLog
| ClickStart
| PressDown
| PressUp
| PressTimeout (src : RandomSource)
| ClickTemp (t : Temp)
| ClickForm (f : Form)
| ChangeRichness (value : float)
| ClickSpeed (sp : Speed)
| ClickNext
| ClickNearby
| ClickRethink
| LongPressRandom (src : RandomSource)
| ClickOpenMaps (geolocation : bool) (src : RandomSource)
| ClickPlace (position : nat) (clk : Clock)
| GeoSuccess (k : nat) (latitude longitude : float) (clk : Clock)
| GeoError (k : nat) (code : Z)
| ClickSeeLog
| ClickGoHome
| ClickClear
| ClickAgain
| ClickLogHome.

(** The [onClick] of a [PrimaryButton] that has no long press. *)
Definition primaryClick (disabled : bool) (onClick : App -> App) (a : App) : App :=
  if disabled then a else onClick a.

(** [showBack] and [showLog] of the [TopBar]: the first only styles the
    back button, the second decides whether the log button is rendered. *)
Definition showBack (a : App) : bool :=
  match screen a with
  | Screen.home | Screen.state => false
  | _ => true
  end.

Definition showLog (a : App) : bool := nonempty (log a).

(** The controls of each screen. *)
Definition onHome (ev : Event) (a : App) : App :=
  match ev with
  | ClickStart => startDecision a
  | PressDown => handlePressDown a
  | PressUp => handlePressUp a
  | _ => a
  end.

Definition onChoose (ev : Event) (a : App) : App :=
  if (chooseStep a =? 0)%Z then
    match ev with
    | ClickTemp t => setTemp (Some t) a
    | ClickNext => primaryClick (negb (nonempty_opt (temp a))) nextChoose a
    | _ => a
    end
  else if (chooseStep a =? 1)%Z then
    match ev with
    | ClickForm f => setForm (Some f) a
    | ClickNext => primaryClick (negb (nonempty_opt (form a))) nextChoose a
    | _ => a
    end
  else if (chooseStep a =? 2)%Z then
    match ev with
    | ChangeRichness value => setRichness value a
    | ClickSpeed sp => setSpeed (Some sp) a
    | ClickNext => primaryClick (negb (nonempty_opt (speed a))) nextChoose a
    | _ => a
    end
  else a.

(** The [onLongPress] of the third button of the Result screen. *)
Definition longPressRandom (src : RandomSource) (a : App) : App :=
  setScreen Screen.state
    (setPressing false (run (randomizeAll (setPressing true a)) src)).

Definition onState (ev : Event) (a : App) : App :=
  match ev with
  | ClickNearby => setScreen Screen.recommend a
  | ClickRethink => setScreen Screen.choose (setChooseStep 0 a)
  | _ => a
  end.

Definition onRecommend (ev : Event) (w : World) : World :=
  match ev with
  | ClickOpenMaps geolocation src => openMapsNearby geolocation src w
  | ClickPlace position clk =>
      match nth_error (filteredPlaces (app w)) position with
      | Some p =>
          onApp (fun a => setScreen Screen.energy
                            (saveEnergy (app w) clk (Place.name (Nearby.place p)) a)) w
      | None => w
      end
  | _ => w
  end.

Definition onEnergy (ev : Event) (a : App) : App :=
  match ev with
  | ClickSeeLog => setScreen Screen.log a
  | ClickGoHome => goHome a
  | _ => a
  end.

Definition onLog (ev : Event) (a : App) : App :=
  match ev with
  | ClickClear => setLog [] a
  | ClickAgain => goHome a
  | ClickLogHome => setScreen Screen.home a
  | _ => a
  end.

(** One event.  The top bar, the timers and the geolocation callbacks do
    not depend on the screen; a control of a screen that is not rendered
    cannot be used.

    The back button of the top bar is rendered on every screen, always
    with [onClick={onBack}]: where [showBack] is false it is only styled
    away ([opacity-0 pointer-events-none]) and the keyboard still reaches
    it, so [ClickBack] runs [goBack] whatever the screen.  The log button
    is rendered only when [showLog] holds.

    [LongPressRandom] is the timeout that [down] of the long-press button
    of the Result screen schedules.  [PrimaryButton] cancels it in [up]
    only, not when the button leaves the screen, and its callback calls
    setters of [App]: once scheduled it runs whatever the screen is by
    then.  The presses of that button are not part of the state here, and
    the event is taken at any time, which covers every run. *)
Definition handle (ev : Event) (w : World) : World :=
  match ev with
  | ClickBack => onApp goBack w
  | LongPressRandom src => onApp (longPressRandom src) w
  | ClickOpenLog => if showLog (app w) then onApp (setScreen Screen.log) w else w
  | PressTimeout src => if pressTimer (app w) then onApp (pressTimeout src) w else w
  | GeoSuccess k latitude longitude clk =>
      answer k (fun req => geoSuccess req latitude longitude clk) w
  | GeoError k code => answer k (fun req => geoError req code) w
  | _ =>
      match screen (app w) with
      | Screen.home => onApp (onHome ev) w
      | Screen.choose => onApp (onChoose ev) w
      | Screen.state => onApp (onState ev) w
      | Screen.recommend => onRecommend ev w
      | Screen.energy => onApp (onEnergy ev) w
      | Screen.log => onApp (onLog ev) w
      end
  end.

Definition handleAll (evs : list Event) (w : World) : World :=
  fold_left (fun w ev => handle ev w) evs w.

Definition initialWorld (entries : list LogEntry.t) : World :=
  {| app := initialApp entries; geoPending := []; opened := [] |}.

End WithHost.

(** A host to run the definitions on concrete inputs: numbers print as
    ["0"], a query is its own encoding, and the stored text never parses. *)
Definition exampleHost : Host :=
  {| Number_toString := fun _ => "0";
     encodeURIComponent := fun s => s;
     JSON_parse := fun _ => None;
     JSON_stringify := fun _ => "[]" |}.

Definition exampleClock : Clock :=
  {| Date_now := 1700000000000; nowISO := "2023-11-14T22:13:20.000Z" |}.

(** A random source: 0.3, then 0.7, then 0.9 for ever. *)
Definition exampleSource : RandomSource :=
  fun n => match n with 0 => 0.3 | 1 => 0.7 | _ => 0.9 end%float.

(** The world on the Recommend screen after the answers hot, soup, fast,
    with the richness left at 0.5 and an empty log. *)
Definition exampleRecommend : World :=
  handleAll (host := exampleHost)
    [ClickStart; ClickTemp hot; ClickNext; ClickForm soup; ClickNext;
     ClickSpeed fast; ClickNext; ClickNearby]
    (initialWorld []).

(** The map action used there, and its request answered with a position. *)
Definition exampleWentOut : World :=
  handleAll (host := exampleHost)
    [ClickOpenMaps true exampleSource; GeoSuccess 0 25 121.5 exampleClock]
    exampleRecommend.

(** The same world once the log button of the top bar has been used: the
    Log screen, with one entry in the log. *)
Definition exampleLogScreen : World :=
  handle (host := exampleHost) ClickOpenLog exampleWentOut.

(** The Recommend world with one position request pending. *)
Definition examplePending : World :=
  handle (host := exampleHost) (ClickOpenMaps true exampleSource) exampleRecommend.

(** A store that holds a text under the key and refuses every write, and
    a store that refuses reads and writes. *)
Definition exampleStorage : LocalStorage :=
  {| items := fun k => if String.eqb k LS_KEY then Some "[{" else None;
     readable := true;
     writable := false |}.

Definition brokenStorage : LocalStorage :=
  {| items := fun _ => None; readable := false; writable := false |}.

(* ------------------------------------------------------------------ *)
(** ** An invariant of the rounding shift

    Used to read the multiplication of numbers: what holds of the record
    [mrs] after [k] halvings ([shr_1]) of a non-negative mantissa [M].
    The mantissa [shr_m mrs] is at most [M / 2^k], and the round bit is
    set only if at least half a unit was dropped. *)

Definition shr_inv (M : Z) (k : Z) (mrs : shr_record) : Prop :=
  (0 <= shr_m mrs)%Z /\
  (shr_m mrs * 2 ^ k + (if shr_r mrs then 2 ^ (k - 1) else 0) <= M)%Z.

(* ------------------------------------------------------------------ *)
(** ** The long press of [PrimaryButton]

    The two refs of a button, and what its handlers do to them.  A
    handler answers the refs it leaves and the callbacks it calls, in
    order. *)

Module PrimaryButton.

Record Refs := {
  tRef : bool;
  longPressedRef : bool
}.

(** The props the handlers test: [disabled], and whether [onClick] and
    [onLongPress] are given. *)
Record Props := {
  disabled : bool;
  hasOnClick : bool;
  hasOnLongPress : bool
}.

Inductive Call := CallOnClick | CallOnLongPress.

(** Mouse or touch down, mouse up (or leave, or touch end), the timeout
    of [longPressMs], and the click. *)
Inductive Input := Down | Up | Timeout | Click.

Definition clear (r : Refs) : Refs :=
  {| tRef := false; longPressedRef := longPressedRef r |}.

Definition down (props : Props) (r : Refs) : Refs :=
  if negb (hasOnLongPress props) then r
  else {| tRef := true; longPressedRef := false |}.

Definition up (r : Refs) : Refs := clear r.

(** The callback of the timeout; it runs only while the timeout is set. *)
Definition timeout (r : Refs) : Refs * list Call :=
  if tRef r
  then (clear {| tRef := tRef r; longPressedRef := true |}, [CallOnLongPress])
  else (r, []).

Definition click (props : Props) (r : Refs) : list Call :=
  if disabled props then []
  else if hasOnLongPress props && longPressedRef r then []
  else if hasOnClick props then [CallOnClick] else [].

Definition step (props : Props) (i : Input) (r : Refs) : Refs * list Call :=
  match i with
  | Down => (down props r, [])
  | Up => (up r, [])
  | Timeout => timeout r
  | Click => (r, click props r)
  end.

Fixpoint run (props : Props) (inputs : list Input) (r : Refs) : Refs * list Call :=
  match inputs with
  | [] => (r, [])
  | i :: rest =>
      let (r1, calls1) := step props i r in
      let (r2, calls2) := run props rest r1 in
      (r2, (calls1 ++ calls2)%list)
  end.

End PrimaryButton.

(* ------------------------------------------------------------------ *)
(** ** A card of the Log screen

    What a card shows of an entry: [e.choiceText ? e.choiceText : ...],
    [e.tags?.slice(0, 3)] and [e.sig?.warmth ?? 0.6]. *)

Definition cardTitle (e : LogEntry.t) : string :=
  if String.eqb (LogEntry.choiceText e) "" then "（未選餐廳）" else LogEntry.choiceText e.

Definition cardTags (e : LogEntry.t) : list string := slice0 3 (LogEntry.tags e).

Definition cardAccent (e : LogEntry.t) : float :=
  match LogEntry.sig e with
  | Some s => Sig.warmth s
  | None => 0.6
  end.

(* ------------------------------------------------------------------ *)
(** ** Reachable worlds and what they keep *)

Section Reachable.
Context {host : Host}.

(** The worlds the component can be in: the first render, whatever log
    the storage gave, followed by any events. *)
Inductive reachable : World -> Prop :=
| reachable_start (entries : list LogEntry.t) : reachable (initialWorld entries)
| reachable_step (ev : Event) (w : World) : reachable w -> reachable (handle ev w).

End Reachable.

(** The three questions are answered. *)
Definition answered (a : App) : Prop :=
  temp a <> None /\ form a <> None /\ speed a <> None.

Definition flowInvariant (a : App) : Prop :=
  (0 <= chooseStep a <= 2)%Z /\
  (pressing a = true -> pressTimer a = true) /\
  (pressing a = true -> screen a = Screen.home \/ screen a = Screen.log) /\
  (screen a = Screen.choose ->
     ((1 <= chooseStep a)%Z -> temp a <> None) /\
     ((2 <= chooseStep a)%Z -> form a <> None)) /\
  (screen a = Screen.state \/ screen a = Screen.recommend \/ screen a = Screen.energy ->
     answered a) /\
  (screen a = Screen.energy -> log a <> []).

Definition worldInvariant (w : World) : Prop :=
  flowInvariant (app w) /\
  Forall (fun req => answered (render req)) (geoPending w).

(** An event that answers a position request. *)
Definition isAnswer (ev : Event) : bool :=
  match ev with
  | GeoSuccess _ _ _ _ | GeoError _ _ => true
  | _ => false
  end.

(** A host whose JSON functions know four texts: the empty log, the log
    of [exampleWentOut] (one entry), [null] and the empty object; every
    other text fails to parse.  And a store that accepts reads and writes. *)
Definition echoHost : Host :=
  {| Number_toString := fun _ => "0";
     encodeURIComponent := fun s => s;
     JSON_parse := fun s =>
       if String.eqb s "[]" then Some (Parsed.array [])
       else if String.eqb s "[{}]" then Some (Parsed.array (log (app exampleWentOut)))
       else if String.eqb s "null" then Some Parsed.null
       else if String.eqb s "{}" then Some Parsed.other
       else None;
     JSON_stringify := fun entries =>
       match entries with
       | [] => "[]"
       | _ :: _ => "[{}]"
       end |}.

(** A store that holds the text of a log of one entry under the key and
    refuses every write. *)
Definition savedStorage : LocalStorage :=
  {| items := fun k => if String.eqb k LS_KEY then Some "[{}]" else None;
     readable := true;
     writable := false |}.

(** A store that holds the text [null] under the key. *)
Definition nullStorage : LocalStorage :=
  {| items := fun k => if String.eqb k LS_KEY then Some "null" else None;
     readable := true;
     writable := true |}.

Definition emptyStorage : LocalStorage :=
  {| items := fun _ => None; readable := true; writable := true |}.

(* ================================================================== *)
(** * Properties *)

(** ** The self tests of the source

    [runSelfTests] asserts these on the helpers; they hold of the
    embedding. *)

Example clamp_upper : clamp 2 0 1 = 1%float.
Proof. reflexivity. Qed.

Example clamp_lower : clamp (-1) 0 1 = 0%float.
Proof. reflexivity. Qed.

Example computeTags_t1 :
  style (computeTags (Some hot) (Some soup) 0.9 (Some fast)) = rich /\
  includes (tags (computeTags (Some hot) (Some soup) 0.9 (Some fast))) "熱食" = true /\
  includes (tags (computeTags (Some hot) (Some soup) 0.9 (Some fast))) "湯的" = true.
Proof. repeat split. Qed.

Example computeTags_t2 :
  style (computeTags (Some cold) (Some dry) 0.1 (Some sit)) = light /\
  includes (tags (computeTags (Some cold) (Some dry) 0.1 (Some sit))) "冷食" = true.
Proof. repeat split. Qed.

Example filterPlaces_ps :
  map (fun n => Place.id (Nearby.place n))
    (filterPlaces (host := exampleHost) (Some hot) (Some soup) (Some sit) rich) = ["p4"].
Proof. reflexivity. Qed.

Example preferenceText_low_mid_high :
  preferenceText 0.1 = "清爽一點" /\ preferenceText 0.5 = "都可以" /\
  preferenceText 0.9 = "重口一點".
Proof. repeat split. Qed.

(** The numbers behind the eight distance texts: the products are those
    of binary64, so the third is not 1.2. *)
Example distance_numbers :
  map (fun idx => ((Number_of_nat idx + 1) * 0.4)%float) [0; 1; 2; 3; 4; 5; 6; 7] =
  [0.4; 0.8; 0x1.3333333333334p+0; 1.6; 2; 0x1.3333333333334p+1;
   0x1.6666666666667p+1; 3.2]%float.
Proof. reflexivity. Qed.

(** ** The order of numbers

    [<], [<=] on numbers are the comparisons of IEEE 754; the facts used
    below are read off their specification [SFcompare]. *)

Lemma SFcompare_antisym (x y : spec_float) :
  SFcompare y x = option_map CompOpp (SFcompare x y).
Proof.
  destruct x as [sx|sx| |sx mx ex], y as [sy|sy| |sy my ey]; simpl;
    try destruct sx; try destruct sy; try reflexivity.
  - rewrite (Z.compare_antisym ey ex). destruct (ey ?= ex)%Z; simpl; try reflexivity.
    rewrite !Pos.compare_cont_spec. simpl. rewrite (Pos.compare_antisym my mx).
    destruct (my ?= mx)%positive; reflexivity.
  - rewrite (Z.compare_antisym ey ex). destruct (ey ?= ex)%Z; simpl; try reflexivity.
    rewrite !Pos.compare_cont_spec. simpl. rewrite (Pos.compare_antisym my mx).
    destruct (my ?= mx)%positive; reflexivity.
Qed.

Lemma SFltb_trans (x y z : spec_float) :
  SFltb x y = true -> SFltb y z = true -> SFltb x z = true.
Proof.
  unfold SFltb.
  destruct x as [sx|sx| |sx mx ex], y as [sy|sy| |sy my ey], z as [sz|sz| |sz mz ez]; simpl;
    try destruct sx; try destruct sy; try destruct sz; simpl; try discriminate; try reflexivity.
  all: rewrite ?Pos.compare_cont_spec; simpl.
  all: destruct (Z.compare_spec ex ey), (Z.compare_spec ey ez), (Z.compare_spec ex ez);
       try discriminate; try reflexivity; try lia.
  all: destruct (Pos.compare_spec mx my), (Pos.compare_spec my mz), (Pos.compare_spec mx mz);
       simpl; try discriminate; try reflexivity; try lia.
Qed.

Lemma ltb_trans (x y z : float) :
  (x <? y)%float = true -> (y <? z)%float = true -> (x <? z)%float = true.
Proof. rewrite !ltb_spec. apply SFltb_trans. Qed.

Lemma leb_not_gt (x y : float) :
  (x <=? y)%float = true -> (y <? x)%float = false.
Proof.
  rewrite leb_spec, ltb_spec. unfold SFleb, SFltb.
  rewrite (SFcompare_antisym (Prim2SF x) (Prim2SF y)).
  destruct (SFcompare (Prim2SF x) (Prim2SF y)) as [[ | | ]|]; simpl; congruence.
Qed.

(** ** Rounding of a product below an integer

    [Math.random()] answers a number [u] with [0 <= u < 1].  The product
    [u * n] is rounded to the nearest binary64 value; this part shows that
    for an integer [1 <= n <= 1024] the rounded product is still below
    [n], so that its floor is an index below [n].  The argument follows
    the specification of the multiplication ([SFmul], [binary_round_aux])
    on integers scaled by powers of two. *)

Section Rounding.
Local Open Scope Z_scope.

Lemma pow2_succ (d : Z) : 1 <= d -> 2 ^ d = 2 * 2 ^ (d - 1).
Proof.
  intros Hd. replace d with (Z.succ (d - 1)) at 1 by lia.
  apply Z.pow_succ_r. lia.
Qed.

Lemma digits2_pos_bounds (p : positive) :
  2 ^ (Z.pos (digits2_pos p) - 1) <= Z.pos p < 2 ^ Z.pos (digits2_pos p).
Proof.
  induction p as [p IH|p IH|]; cbn [digits2_pos].
  - rewrite Pos2Z.inj_succ.
    replace (Z.succ (Z.pos (digits2_pos p)) - 1) with (Z.pos (digits2_pos p)) by lia.
    rewrite (pow2_succ (Z.succ _)) by lia.
    replace (Z.succ (Z.pos (digits2_pos p)) - 1) with (Z.pos (digits2_pos p)) by lia.
    rewrite (pow2_succ (Z.pos (digits2_pos p))) in * by lia. lia.
  - rewrite Pos2Z.inj_succ.
    replace (Z.succ (Z.pos (digits2_pos p)) - 1) with (Z.pos (digits2_pos p)) by lia.
    rewrite (pow2_succ (Z.succ _)) by lia.
    replace (Z.succ (Z.pos (digits2_pos p)) - 1) with (Z.pos (digits2_pos p)) by lia.
    rewrite (pow2_succ (Z.pos (digits2_pos p))) in * by lia. lia.
  - simpl. lia.
Qed.

Lemma iter_pos_invariant {A : Type} (f : A -> A) (P : Z -> A -> Prop) :
  (forall k a, 0 <= k -> P k a -> P (k + 1) (f a)) ->
  forall p k a, 0 <= k -> P k a -> P (k + Z.pos p) (iter_pos f p a).
Proof.
  intros Hstep. induction p as [p IH|p IH|]; intros k a Hk Ha; cbn [iter_pos].
  - replace (k + Z.pos p~1) with ((k + 1 + Z.pos p) + Z.pos p) by lia.
    apply IH; [lia|]. apply IH; [lia|]. now apply Hstep.
  - replace (k + Z.pos p~0) with ((k + Z.pos p) + Z.pos p) by lia.
    apply IH; [lia|]. now apply IH.
  - now apply Hstep.
Qed.

Lemma shr_1_inv (M k : Z) (mrs : shr_record) :
  0 <= k -> shr_inv M k mrs -> shr_inv M (k + 1) (shr_1 mrs).
Proof.
  intros Hk [Hm Hle]. destruct mrs as [m r s]. cbn [shr_m shr_r] in *.
  assert (Hr : 0 <= (if r then 2 ^ (k - 1) else 0)).
  { destruct r; [apply Z.pow_nonneg|]; lia. }
  unfold shr_inv.
  replace (k + 1 - 1) with k by lia.
  rewrite Z.pow_add_r by lia. change (2 ^ 1) with 2.
  assert (H2k : 0 < 2 ^ k) by (apply Z.pow_pos_nonneg; lia).
  destruct m as [|[p|p|]|p]; cbn [shr_1 shr_m shr_r]; try lia.
  all: split; [lia|]; nia.
Qed.

Lemma shr_inv_start (M : Z) : 0 <= M -> shr_inv M 0 (Build_shr_record M false false).
Proof. intros HM. split; cbn; lia. Qed.

(** [shr] from an exact record. *)
Lemma shr_exact_bound (M e n : Z) :
  0 <= M ->
  let mrs := fst (shr (Build_shr_record M false false) e n) in
  let e' := snd (shr (Build_shr_record M false false) e n) in
  e' = e + Z.max n 0 /\
  0 <= shr_m mrs /\
  shr_m mrs * 2 ^ (Z.max n 0) <= M /\
  round_nearest_even (shr_m mrs) (loc_of_shr_record mrs) * 2 ^ (Z.max n 0)
    <= M + match n with Z.pos _ => 2 ^ (n - 1) | _ => 0 end /\
  0 <= round_nearest_even (shr_m mrs) (loc_of_shr_record mrs).
Proof.
  intros HM. destruct n as [|p|p]; cbn [shr fst snd Z.max Z.compare].
  - cbn. lia.
  - pose proof (iter_pos_invariant shr_1 (shr_inv M) (shr_1_inv M) p 0
                  (Build_shr_record M false false) (Z.le_refl 0) (shr_inv_start M HM)) as Hinv.
    cbn [Z.add] in Hinv.
    destruct (iter_pos shr_1 p _) as [m r s]. destruct Hinv as [Hm Hle].
    cbn [shr_m shr_r] in *.
    assert (Hp : 0 < 2 ^ Z.pos p) by (apply Z.pow_pos_nonneg; lia).
    assert (Hh : 2 ^ Z.pos p = 2 * 2 ^ (Z.pos p - 1)) by (apply pow2_succ; lia).
    assert (Hhp : 0 < 2 ^ (Z.pos p - 1)) by (apply Z.pow_pos_nonneg; lia).
    replace (Z.max (Z.pos p) 0) with (Z.pos p) by lia.
    split; [lia|]. split; [lia|].
    destruct r, s; cbn [loc_of_shr_record round_nearest_even]; try destruct (Z.even m);
      repeat split; nia.
  - cbn. lia.
Qed.

Lemma fexp_binary64 (z : Z) : fexp prec emax z = Z.max (z - 53) (-1074).
Proof. reflexivity. Qed.

Lemma pow2_lt_inv (a b : Z) : 0 <= b -> 2 ^ a < 2 ^ b -> a < b.
Proof. intros Hb H. apply (Z.pow_lt_mono_r_iff 2); [lia | exact Hb | exact H]. Qed.

Lemma round_below (M : positive) (E N : Z) :
  E < 0 -> 0 < N <= 1024 ->
  Z.pos M + match fexp prec emax (Z.pos (digits2_pos M) + E) - E with
            | Z.pos p => 2 ^ (Z.pos p - 1)
            | _ => 0
            end < N * 2 ^ (- E) ->
  match binary_round_aux prec emax false (Z.pos M) E loc_Exact with
  | S754_zero false => True
  | S754_finite false m e => E <= e /\ Z.pos m * 2 ^ (e - E) < N * 2 ^ (- E)
  | _ => False
  end.
Proof.
  intros HE HN Hbound.
  unfold binary_round_aux, shr_fexp. cbn [shr_record_of_loc Zdigits2].
  set (d := Z.pos (digits2_pos M)) in *.
  set (s1 := fexp prec emax (d + E) - E) in *.
  pose proof (shr_exact_bound (Z.pos M) E s1 (Pos2Z.is_nonneg M)) as H1. cbv zeta in H1.
  destruct (shr {| shr_m := Z.pos M; shr_r := false; shr_s := false |} E s1) as [mrs' e'].
  cbn [fst snd] in H1. destruct H1 as (He' & _ & _ & Hm1 & Hm1pos).
  set (m1 := round_nearest_even (shr_m mrs') (loc_of_shr_record mrs')) in *.
  set (s2 := fexp prec emax (Zdigits2 m1 + e') - e') in *.
  pose proof (shr_exact_bound m1 e' s2 Hm1pos) as H2. cbv zeta in H2.
  destruct (shr {| shr_m := m1; shr_r := false; shr_s := false |} e' s2) as [mrs'' e''].
  cbn [fst snd] in H2. destruct H2 as (He'' & Hm2pos & Hm2 & _ & _).
  (* scaled bounds *)
  assert (HNE : 0 < 2 ^ (- E)) by (apply Z.pow_pos_nonneg; lia).
  assert (Hcap : N * 2 ^ (- E) <= 2 ^ (10 - E)).
  { replace (10 - E) with (10 + - E) by lia. rewrite Z.pow_add_r by lia.
    change (2 ^ 10) with 1024. nia. }
  assert (Hs1 : 0 < 2 ^ Z.max s1 0) by (apply Z.pow_pos_nonneg; lia).
  assert (Hs2 : 0 < 2 ^ Z.max s2 0) by (apply Z.pow_pos_nonneg; lia).
  assert (Hhalf : match s1 with Z.pos _ => 2 ^ (s1 - 1) | _ => 0 end =
                  match s1 with Z.pos p => 2 ^ (Z.pos p - 1) | _ => 0 end).
  { now destruct s1. }
  rewrite Hhalf in Hm1. clear Hhalf.
  assert (Hval1 : m1 * 2 ^ Z.max s1 0 < N * 2 ^ (- E)) by lia.
  assert (Hd : d + E <= 10).
  { pose proof (digits2_pos_bounds M) as [Hlo _]. fold d in Hlo.
    assert (Hlt : 2 ^ (d - 1) < 2 ^ (10 - E)).
    { assert (0 <= match s1 with Z.pos p => 2 ^ (Z.pos p - 1) | _ => 0 end).
      { destruct s1; first [lia | apply Z.pow_nonneg; lia]. }
      lia. }
    apply pow2_lt_inv in Hlt; lia. }
  assert (He'le : e' <= 0).
  { rewrite He'. unfold s1. rewrite fexp_binary64. lia. }
  destruct (shr_m mrs'') as [|m|m] eqn:Hm; [exact I | | lia].
  assert (Hm1gt : 0 < m1) by nia.
  assert (Hval2 : Z.pos m * 2 ^ (e'' - E) < N * 2 ^ (- E)).
  { replace (e'' - E) with (Z.max s2 0 + Z.max s1 0) by lia.
    rewrite Z.pow_add_r by lia. nia. }
  assert (He''le : e'' <= 971).
  { destruct (Z.max_spec s2 0) as [[_ Hmax]|[_ Hmax]]; [lia|].
    destruct (Z_le_gt_dec s2 0) as [Hle|Hgt]; [lia|].
    (* a second shift: bound the digits of m1 *)
    rewrite He''. replace (Z.max s2 0) with s2 by lia. unfold s2.
    rewrite fexp_binary64.
    destruct m1 as [|p1|p1]; try lia. cbn [Zdigits2].
    pose proof (digits2_pos_bounds p1) as [Hlo _].
    assert (Hlt : 2 ^ (Z.pos (digits2_pos p1) - 1 + Z.max s1 0) < 2 ^ (10 - E)).
    { rewrite Z.pow_add_r by lia. nia. }
    apply pow2_lt_inv in Hlt; lia. }
  replace (e'' <=? emax - prec) with true
    by (symmetry; apply Z.leb_le; change (emax - prec) with 971; exact He''le).
  split; [lia | exact Hval2].
Qed.

Lemma mul_half_bound (mx my : positive) (ex ey N : Z) :
  -1074 <= ex -> ex < 0 -> Z.pos mx < 2 ^ 53 -> Z.pos mx < 2 ^ (- ex) ->
  ey <= 0 -> 1 <= N -> Z.pos my = N * 2 ^ (- ey) ->
  Z.pos (mx * my)
  + match fexp prec emax (Z.pos (digits2_pos (mx * my)) + (ex + ey)) - (ex + ey) with
    | Z.pos p => 2 ^ (Z.pos p - 1)
    | _ => 0
    end < N * 2 ^ (- (ex + ey)).
Proof.
  intros Hex Hneg Hmx Hu Hey HN Hmy.
  assert (Hsplit : N * 2 ^ (- (ex + ey)) = Z.pos my * 2 ^ (- ex)).
  { replace (- (ex + ey)) with (- ey + - ex) by lia.
    rewrite Z.pow_add_r by lia. rewrite Hmy. ring. }
  rewrite Hsplit. rewrite Pos2Z.inj_mul.
  assert (Hey2 : 0 < 2 ^ (- ey)) by (apply Z.pow_pos_nonneg; lia).
  enough (Hhalf : match fexp prec emax (Z.pos (digits2_pos (mx * my)) + (ex + ey)) - (ex + ey) with
                  | Z.pos p => 2 ^ (Z.pos p - 1)
                  | _ => 0
                  end < Z.pos my) by nia.
  rewrite fexp_binary64.
  set (d := Z.pos (digits2_pos (mx * my))).
  destruct (Z.max (d + (ex + ey) - 53) (-1074) - (ex + ey)) as [|p|p] eqn:Hs; try lia.
  destruct (Z.max_spec (d + (ex + ey) - 53) (-1074)) as [[Hc Hmax]|[Hc Hmax]];
    rewrite Hmax in Hs.
  - (* the subnormal range *)
    assert (Hle : 2 ^ (Z.pos p - 1) <= 2 ^ (- 1 - ey)) by (apply Z.pow_le_mono_r; lia).
    assert (Hlt : 2 ^ (- 1 - ey) < 2 ^ (- ey)) by (apply Z.pow_lt_mono_r; lia).
    nia.
  - (* the normal range: the shift is d - 53 *)
    pose proof (digits2_pos_bounds (mx * my)) as [Hlo _]. fold d in Hlo.
    rewrite Pos2Z.inj_mul in Hlo.
    replace (d - 1) with ((Z.pos p - 1) + 53) in Hlo by lia.
    rewrite Z.pow_add_r in Hlo by lia.
    assert (0 < 2 ^ (Z.pos p - 1)) by (apply Z.pow_pos_nonneg; lia).
    nia.
Qed.

Lemma valid_finite_bounds (m : positive) (e : Z) :
  valid_binary (S754_finite false m e) = true ->
  -1074 <= e /\ Z.pos m < 2 ^ 53.
Proof.
  cbn [SpecFloat.valid_binary]. unfold bounded, canonical_mantissa.
  rewrite andb_true_iff, Z.eqb_eq, fexp_binary64. intros [Hc _].
  pose proof (digits2_pos_bounds m) as [_ Hhi].
  split; [lia|].
  assert (Hd : Z.pos (digits2_pos m) <= 53) by lia.
  eapply Z.lt_le_trans; [exact Hhi|]. apply Z.pow_le_mono_r; lia.
Qed.

Lemma Math_floor_random_times (u nf : float) (my : positive) (ey N : Z) :
  (0 <=? u)%float = true -> (u <? 1)%float = true ->
  Prim2SF nf = S754_finite false my ey ->
  ey <= 0 -> 1 <= N <= 1024 -> Z.pos my = N * 2 ^ (- ey) ->
  exists k, Math_floor (u * nf)%float = Some k /\ 0 <= k < N.
Proof.
  intros H0 H1 Hnf Hey HN Hmy.
  unfold Math_floor. rewrite mul_spec, Hnf.
  rewrite leb_spec in H0. rewrite ltb_spec in H1.
  change (Prim2SF 0) with (S754_zero false) in H0.
  change (Prim2SF 1) with (S754_finite false 4503599627370496 (-52)) in H1.
  pose proof (Prim2SF_valid u) as Hvalid.
  destruct (Prim2SF u) as [s|s| |s mx ex].
  - (* zero *) cbn. exists 0. split; [reflexivity | lia].
  - (* infinity *) destruct s; discriminate.
  - (* nan *) discriminate.
  - destruct s; [discriminate|].
    apply valid_finite_bounds in Hvalid. destruct Hvalid as [Hex Hmx].
    assert (Hu : ex < 0 /\ Z.pos mx < 2 ^ (- ex)).
    { unfold SFltb, SFcompare in H1.
      destruct (Z.compare_spec ex (-52)) as [->|Hlt|Hgt]; try discriminate.
      - rewrite Pos.compare_cont_spec in H1. cbn [Pos.switch_Eq] in H1.
        destruct (mx ?= 4503599627370496)%positive eqn:Hc; try discriminate.
        split; [lia | exact Hc].
      - split; [lia|]. eapply Z.lt_le_trans; [exact Hmx|].
        apply Z.pow_le_mono_r; lia. }
    destruct Hu as [Hneg Hu].
    pose proof (round_below (mx * my) (ex + ey) N ltac:(lia) ltac:(lia)
                  (mul_half_bound mx my ex ey N Hex Hneg Hmx Hu Hey ltac:(lia) Hmy)) as Hr.
    unfold SF64mul, SFmul. cbn [xorb].
    destruct (binary_round_aux prec emax false (Z.pos (mx * my)) (ex + ey) loc_Exact)
      as [s|s| |s m e]; try destruct s; try contradiction.
    + exists 0. split; [reflexivity | lia].
    + destruct Hr as [Hle Hval].
      assert (HE : 0 < 2 ^ (- (ex + ey))) by (apply Z.pow_pos_nonneg; lia).
      destruct e as [|p|p].
      * exists (Z.pos m * 2 ^ 0). split; [reflexivity|].
        rewrite Z.sub_0_l in Hval. nia.
      * exists (Z.pos m * 2 ^ Z.pos p). split; [reflexivity|].
        replace (Z.pos p - (ex + ey)) with (Z.pos p + - (ex + ey)) in Hval by lia.
        rewrite Z.pow_add_r in Hval by lia.
        assert (0 < 2 ^ Z.pos p) by (apply Z.pow_pos_nonneg; lia). nia.
      * exists (Z.pos m / Z.pow_pos 2 p). split; [reflexivity|].
        change (Z.pow_pos 2 p) with (2 ^ Z.pos p).
        assert (Hp : 0 < 2 ^ Z.pos p) by (apply Z.pow_pos_nonneg; lia).
        assert (Hq : 0 < 2 ^ (Z.neg p - (ex + ey))) by (apply Z.pow_pos_nonneg; lia).
        replace (- (ex + ey)) with (Z.pos p + (Z.neg p - (ex + ey))) in Hval by lia.
        rewrite Z.pow_add_r in Hval by lia.
        split; [apply Z.div_pos; lia|].
        apply Z.div_lt_upper_bound; [exact Hp | nia].
Qed.

End Rounding.

(** ** The query builder *)

Lemma Number_of_nat_small (n : nat) :
  1 <= n <= 19 ->
  exists (my : positive) (ey : Z),
    Prim2SF (Number_of_nat n) = S754_finite false my ey /\
    (ey <= 0)%Z /\ Z.pos my = (Z.of_nat n * 2 ^ (- ey))%Z.
Proof.
  intros Hn.
  do 20 (destruct n as [|n];
         [ first [ lia
                 | eexists; eexists; split; [vm_compute; reflexivity|];
                   split; [vm_compute; discriminate | vm_compute; reflexivity] ]
         | ]).
  lia.
Qed.

Lemma bind_eq {A B : Type} (m : Rnd A) (k : A -> Rnd B) (src : RandomSource) (n : nat) :
  bind m k src n = k (fst (m src n)) src (snd (m src n)).
Proof. unfold bind. now destruct (m src n). Qed.

(** A pick in an array of 1 to 19 elements reads the source once and
    returns an element of the array. *)
Lemma pick_in_range {A : Type} (arr : list A) (src : RandomSource) (n : nat) :
  1 <= List.length arr <= 19 ->
  (0 <=? src n)%float = true -> (src n <? 1)%float = true ->
  exists x, pick arr src n = (Some x, S n) /\ In x arr.
Proof.
  intros Hlen H0 H1.
  destruct (Number_of_nat_small (List.length arr) Hlen) as (my & ey & Hnf & Hey & Hmy).
  destruct (Math_floor_random_times (src n) (Number_of_nat (List.length arr)) my ey
              (Z.of_nat (List.length arr)) H0 H1 Hnf Hey ltac:(lia) Hmy)
    as (k & Hk & Hrange).
  destruct (nth_error arr (Z.to_nat k)) as [x|] eqn:Hx.
  - exists x. split; [|eapply nth_error_In; exact Hx].
    unfold pick. rewrite bind_eq. cbn [Math_random fst snd ret]. rewrite Hk.
    unfold index. replace (0 <=? k)%Z with true by (symmetry; apply Z.leb_le; lia).
    now rewrite Hx.
  - apply nth_error_None in Hx. lia.
Qed.

Lemma includes_In (arr : list string) (s : string) : includes arr s = true <-> In s arr.
Proof.
  unfold includes. rewrite existsb_exists. split.
  - intros (x & Hin & Heq). apply String.eqb_eq in Heq. now subst.
  - intros Hin. exists s. split; [exact Hin | apply String.eqb_refl].
Qed.

Lemma push_when_In (c : bool) (items pool : list string) (k : string) :
  In k (push_when c items pool) <-> In k pool \/ (c = true /\ In k items).
Proof.
  unfold push_when. destruct c.
  - rewrite in_app_iff. intuition.
  - intuition discriminate.
Qed.

Lemma keywordPool_In (tags : list string) (k : string) :
  let hasHot := In "熱食" tags in
  let hasCold := In "冷食" tags in
  let hasSoup := In "湯的" tags in
  let hasDry := In "乾的" tags in
  let hasRich := In "重口" tags in
  let hasLight := In "清爽" tags in
  In k (keywordPool tags) <->
  (hasRich /\ hasSoup /\ hasHot /\ In k keywords_rich_soup) \/
  (hasLight /\ hasSoup /\ hasHot /\ In k keywords_light_soup) \/
  (hasRich /\ hasDry /\ hasHot /\ In k keywords_rich_dry) \/
  (hasLight /\ hasDry /\ In k keywords_light_dry) \/
  (hasCold /\ In k keywords_cold) \/
  (~ (hasRich /\ hasSoup /\ hasHot) /\ ~ (hasLight /\ hasSoup /\ hasHot) /\
   ~ (hasRich /\ hasDry /\ hasHot) /\ ~ (hasLight /\ hasDry) /\ ~ hasCold /\
   In k keywords_generic).
Proof.
  cbv zeta.
  rewrite <- (includes_In tags "熱食"), <- (includes_In tags "冷食"),
    <- (includes_In tags "湯的"), <- (includes_In tags "乾的"),
    <- (includes_In tags "重口"), <- (includes_In tags "清爽").
  unfold keywordPool. cbv zeta.
  generalize (includes tags "熱食") (includes tags "冷食") (includes tags "湯的")
    (includes tags "乾的") (includes tags "重口") (includes tags "清爽").
  intros hasHot hasCold hasSoup hasDry hasRich hasLight.
  set (c0 := hasRich && hasSoup && hasHot).
  set (c1 := hasLight && hasSoup && hasHot).
  set (c2 := hasRich && hasDry && hasHot).
  set (c3 := hasLight && hasDry).
  assert (Hnone : Nat.eqb
            (List.length
               (push_when hasCold keywords_cold
                  (push_when c3 keywords_light_dry
                     (push_when c2 keywords_rich_dry
                        (push_when c1 keywords_light_soup
                           (push_when c0 keywords_rich_soup []))))))
            0 = negb (c0 || c1 || c2 || c3 || hasCold)).
  { destruct c0, c1, c2, c3, hasCold; reflexivity. }
  rewrite Hnone. rewrite !push_when_In. cbn [In]. subst c0 c1 c2 c3.
  destruct hasHot, hasCold, hasSoup, hasDry, hasRich, hasLight; cbn [negb orb andb];
    intuition discriminate.
Qed.

Lemma keywordPool_length (tags : list string) :
  1 <= List.length (keywordPool tags) <= 19.
Proof.
  unfold keywordPool.
  destruct (includes tags "熱食"), (includes tags "冷食"), (includes tags "湯的"),
    (includes tags "乾的"), (includes tags "重口"), (includes tags "清爽"); cbn; lia.
Qed.

Lemma keywordPool_not_blank (tags : list string) (k : string) :
  In k (keywordPool tags) -> k <> "".
Proof.
  intros Hin Hk. subst k. apply keywordPool_In in Hin. cbv zeta in Hin.
  unfold keywords_rich_soup, keywords_light_soup, keywords_rich_dry, keywords_light_dry,
    keywords_cold, keywords_generic in Hin. cbn [In] in Hin.
  intuition discriminate.
Qed.

Lemma append_not_blank (a b : string) : a <> "" -> a ++ b <> "".
Proof. destruct a; [contradiction | discriminate]. Qed.

Lemma Array_from_Set_pair (a b : string) :
  Array_from_Set [Some a; Some b] =
  if String.eqb b a then [Some a] else [Some a; Some b].
Proof.
  unfold Array_from_Set, Set_add. cbn -[String.eqb].
  now destruct (String.eqb b a).
Qed.

Lemma Array_from_Set_single (a : string) : Array_from_Set [Some a] = [Some a].
Proof. reflexivity. Qed.

(** C7.  For every tag list, and for every random source whose answers
    lie in [0, 1) as those of [Math.random()] do, [buildMapsQuery]
    returns a non-empty string that is one keyword of the pool, or two
    different keywords of the pool with a single space between them (two
    only when the second draw exceeds 0.55).  The pool holds the keywords
    of every combination that fires (rich+soup+hot, light+soup+hot,
    rich+dry+hot, light+dry, cold: they add up), and the generic keywords
    when none does. *)
Theorem buildMapsQuery_keywords :
  forall (tags : list string) (src : RandomSource) (n : nat),
    (forall i, (0 <=? src i)%float = true /\ (src i <? 1)%float = true) ->
    let hasHot := In "熱食" tags in
    let hasCold := In "冷食" tags in
    let hasSoup := In "湯的" tags in
    let hasDry := In "乾的" tags in
    let hasRich := In "重口" tags in
    let hasLight := In "清爽" tags in
    let pool := keywordPool tags in
    let q := fst (buildMapsQuery tags src n) in
    q <> "" /\
    ((exists k, In k pool /\ q = k) \/
     (exists k1 k2, In k1 pool /\ In k2 pool /\ k1 <> k2 /\ q = k1 ++ " " ++ k2)) /\
    ((0.55 <? src (S n))%float = false -> exists k, In k pool /\ q = k) /\
    (forall k, In k pool <->
       (hasRich /\ hasSoup /\ hasHot /\ In k keywords_rich_soup) \/
       (hasLight /\ hasSoup /\ hasHot /\ In k keywords_light_soup) \/
       (hasRich /\ hasDry /\ hasHot /\ In k keywords_rich_dry) \/
       (hasLight /\ hasDry /\ In k keywords_light_dry) \/
       (hasCold /\ In k keywords_cold) \/
       (~ (hasRich /\ hasSoup /\ hasHot) /\ ~ (hasLight /\ hasSoup /\ hasHot) /\
        ~ (hasRich /\ hasDry /\ hasHot) /\ ~ (hasLight /\ hasDry) /\ ~ hasCold /\
        In k keywords_generic)).
Proof.
  intros tags src n Hsrc. cbv zeta.
  assert (Hshape :
    (exists k, In k (keywordPool tags) /\ fst (buildMapsQuery tags src n) = k /\ k <> "") \/
    ((0.55 <? src (S n))%float = true /\
     exists k1 k2, In k1 (keywordPool tags) /\ In k2 (keywordPool tags) /\ k1 <> k2 /\
       k1 <> "" /\ fst (buildMapsQuery tags src n) = k1 ++ " " ++ k2)).
  { unfold buildMapsQuery. cbv zeta.
    destruct (pick_in_range (keywordPool tags) src n (keywordPool_length tags)
                (proj1 (Hsrc n)) (proj2 (Hsrc n))) as (ka & Hpa & Hina).
    pose proof (keywordPool_not_blank tags ka Hina) as Hka.
    assert (HBa : Boolean (Some ka) = true).
    { cbn. destruct (String.eqb_spec ka ""); [contradiction | reflexivity]. }
    rewrite bind_eq, Hpa. cbn [fst snd].
    rewrite bind_eq. cbn [Math_random fst snd].
    destruct (0.55 <? src (S n))%float eqn:Hsecond.
    - destruct (pick_in_range (keywordPool tags) src (S (S n)) (keywordPool_length tags)
                  (proj1 (Hsrc (S (S n)))) (proj2 (Hsrc (S (S n))))) as (kb & Hpb & Hinb).
      pose proof (keywordPool_not_blank tags kb Hinb) as Hkb.
      assert (HBb : Boolean (Some kb) = true).
      { cbn. destruct (String.eqb_spec kb ""); [contradiction | reflexivity]. }
      rewrite bind_eq, Hpb. cbn [fst snd ret filter]. rewrite HBa, HBb.
      rewrite Array_from_Set_pair.
      destruct (String.eqb_spec kb ka) as [->|Hne]; cbn [join text_of].
      + left. exists ka. auto.
      + right. split; [reflexivity|]. exists ka, kb. repeat split; auto.
    - rewrite bind_eq. cbn [fst snd ret filter]. rewrite HBa. cbn [Boolean String.eqb negb].
      rewrite Array_from_Set_single. cbn [join text_of].
      left. exists ka. auto. }
  split.
  { destruct Hshape as [(k & _ & -> & Hk)|(_ & k1 & k2 & _ & _ & _ & Hk1 & ->)];
      [exact Hk | now apply append_not_blank]. }
  split.
  { destruct Hshape as [(k & Hin & Hq & _)|(_ & k1 & k2 & H1 & H2 & Hne & _ & Hq)].
    - left. exists k. auto.
    - right. exists k1, k2. auto. }
  split.
  { intros Hsecond.
    destruct Hshape as [(k & Hin & Hq & _)|(Hgt & _)]; [|congruence].
    exists k. auto. }
  intros k. apply keywordPool_In.
Qed.

Lemma exampleSource_range :
  forall i, (0 <=? exampleSource i)%float = true /\ (exampleSource i <? 1)%float = true.
Proof. intros [|[|i]]; split; reflexivity. Qed.

Lemma buildMapsQuery_keywords_witness :
  (forall i, (0 <=? exampleSource i)%float = true /\ (exampleSource i <? 1)%float = true) /\
  fst (buildMapsQuery ["熱食"; "湯的"; "清爽"; "快點"] exampleSource 0) = "粥 烏龍麵" /\
  fst (buildMapsQuery ["熱食"; "湯的"; "清爽"; "快點"] exampleSource 0) <> "".
Proof.
  split; [exact exampleSource_range|].
  split; [reflexivity|].
  exact (proj1 (buildMapsQuery_keywords ["熱食"; "湯的"; "清爽"; "快點"] exampleSource 0
                  exampleSource_range)).
Defined.

(** ** Derivation of the tags *)

(** The label of a preference that may be unset, as a list of at most one. *)
Lemma push_if_app {A : Type} (v : option A) (label : A -> string) (t : list string) :
  push_if v label t = (t ++ match v with Some a => [label a] | None => [] end)%list.
Proof. destruct v; simpl; [reflexivity | now rewrite app_nil_r]. Qed.

(** C3.  For every richness, [computeTags] gives the style [rich] exactly
    when [richness >= 0.55] and [light] otherwise; [0.55] itself gives
    [rich]; and the tags are, in this order, the temperature label (none
    when unset), the form label (none when unset), the style label (always
    there) and the pace label (none when unset).  The style label is the
    text of the derived style: the rich label for [rich], the light label
    for [light], and never the other one. *)
Theorem computeTags_style_and_order :
  forall (temp : option Temp) (form : option Form) (richness : float) (speed : option Speed),
    let d := computeTags temp form richness speed in
    (style d = rich <-> (0.55 <=? richness)%float = true) /\
    (style d = light <-> (0.55 <=? richness)%float = false) /\
    style (computeTags temp form 0.55 speed) = rich /\
    In (style_label (style d)) (tags d) /\
    tags d =
      (match temp with Some t => [temp_label t] | None => [] end
       ++ match form with Some f => [form_label f] | None => [] end
       ++ [style_label (style d)]
       ++ match speed with Some s => [speed_label s] | None => [] end)%list /\
    tags d =
      (match temp with Some hot => ["熱食"] | Some cold => ["冷食"] | None => [] end
       ++ match form with Some soup => ["湯的"] | Some dry => ["乾的"] | None => [] end
       ++ [if (0.55 <=? richness)%float then "重口" else "清爽"]
       ++ match speed with Some fast => ["快點"] | Some sit => ["坐下來吃"] | None => [] end)%list /\
    (style d = rich -> In "重口" (tags d) /\ ~ In "清爽" (tags d)) /\
    (style d = light -> In "清爽" (tags d) /\ ~ In "重口" (tags d)).
Proof.
  intros temp form richness speed d.
  assert (Htags : tags d =
      (match temp with Some t => [temp_label t] | None => [] end
       ++ match form with Some f => [form_label f] | None => [] end
       ++ [style_label (style d)]
       ++ match speed with Some s => [speed_label s] | None => [] end)%list).
  { subst d. unfold computeTags. cbn [tags style].
    rewrite !push_if_app. cbn [app]. now rewrite <- !app_assoc. }
  assert (Hstyle : style d = if (0.55 <=? richness)%float then rich else light).
  { subst d. reflexivity. }
  split; [rewrite Hstyle; destruct (0.55 <=? richness)%float; split; congruence|].
  split; [rewrite Hstyle; destruct (0.55 <=? richness)%float; split; congruence|].
  split; [reflexivity|].
  split; [rewrite Htags, !in_app_iff; right; right; left; left; reflexivity|].
  split; [exact Htags|].
  rewrite Htags, Hstyle. clear Htags Hstyle d.
  destruct (0.55 <=? richness)%float;
    destruct temp as [[|]|], form as [[|]|], speed as [[|]|]; cbn;
    (split; [reflexivity|]);
    (split; intros Hst; try discriminate Hst);
    (split; [tauto | intros H; repeat (destruct H as [H|H]; [discriminate H|]); exact H]).
Qed.

(** ** The preference text *)

(** C8.  For every richness [r], [preferenceText r] is the "light" text
    exactly when [r < 0.4], the "rich" text exactly when [r > 0.6], and
    the neutral text for every [r] with [0.4 <= r <= 0.6] (so at 0.55 and
    0.6, where the style is already [rich]); it is the neutral text
    exactly when neither comparison holds. *)
Theorem preferenceText_thresholds :
  forall r : float,
    (preferenceText r = "清爽一點" <-> (r <? 0.4)%float = true) /\
    (preferenceText r = "重口一點" <-> (0.6 <? r)%float = true) /\
    (preferenceText r = "都可以" <->
       (r <? 0.4)%float = false /\ (0.6 <? r)%float = false) /\
    ((0.4 <=? r)%float = true /\ (r <=? 0.6)%float = true ->
       preferenceText r = "都可以") /\
    preferenceText 0.55 = "都可以" /\
    style (computeTags None None 0.55 None) = rich.
Proof.
  intros r.
  assert (Hexcl : (0.6 <? r)%float = true -> (r <? 0.4)%float = false).
  { intros H. destruct (r <? 0.4)%float eqn:E; [|reflexivity].
    pose proof (ltb_trans _ _ _ H E) as C. vm_compute in C. discriminate. }
  unfold preferenceText.
  destruct (r <? 0.4)%float eqn:E1; destruct (0.6 <? r)%float eqn:E2;
    try (specialize (Hexcl eq_refl); discriminate).
  all: repeat split; intros; try discriminate; try reflexivity;
       try (match goal with H : _ /\ _ |- _ => destruct H as [Ha Hb] end;
            try discriminate;
            try (apply leb_not_gt in Ha; congruence);
            try (apply leb_not_gt in Hb; congruence)).
Qed.

Lemma preferenceText_witness :
  ((0.4 <=? 0.5)%float = true /\ (0.5 <=? 0.6)%float = true) /\
  preferenceText 0.5 = "都可以".
Proof.
  split; [split; reflexivity|].
  destruct (preferenceText_thresholds 0.5) as (_ & _ & _ & Hband & _).
  apply Hband. split; reflexivity.
Defined.

(** ** The filter engine *)

Lemma Temp_eqb_eq (a b : Temp) : Temp_eqb a b = true <-> a = b.
Proof. destruct a, b; simpl; split; congruence. Qed.

Lemma Form_eqb_eq (a b : Form) : Form_eqb a b = true <-> a = b.
Proof. destruct a, b; simpl; split; congruence. Qed.

Lemma Speed_eqb_eq (a b : Speed) : Speed_eqb a b = true <-> a = b.
Proof. destruct a, b; simpl; split; congruence. Qed.

Lemma Style_eqb_eq (a b : Style) : Style_eqb a b = true <-> a = b.
Proof. destruct a, b; simpl; split; congruence. Qed.

Lemma temp_ok_iff (temp : option Temp) (p : Place.t) :
  temp_ok temp p = true <-> (forall t, temp = Some t -> Place.type p = t).
Proof.
  destruct temp as [t|]; simpl.
  - rewrite Temp_eqb_eq. split; [intros H t' [= <-]; exact H | intros H; now apply H].
  - split; [intros _ t [=] | reflexivity].
Qed.

Lemma form_ok_iff (form : option Form) (p : Place.t) :
  form_ok form p = true <-> (forall f, form = Some f -> Place.form p = f).
Proof.
  destruct form as [f|]; simpl.
  - rewrite Form_eqb_eq. split; [intros H f' [= <-]; exact H | intros H; now apply H].
  - split; [intros _ f [=] | reflexivity].
Qed.

Lemma speed_ok_iff (speed : option Speed) (p : Place.t) :
  speed_ok speed p = true <-> (forall s, speed = Some s -> Place.speed p = s).
Proof.
  destruct speed as [s|]; simpl.
  - rewrite Speed_eqb_eq. split; [intros H s' [= <-]; exact H | intros H; now apply H].
  - split; [intros _ s [=] | reflexivity].
Qed.

Lemma filter_filter {A : Type} (f g : A -> bool) (l : list A) :
  filter g (filter f l) = filter (fun x => f x && g x) l.
Proof.
  induction l as [|x l IH]; simpl; [reflexivity|].
  destruct (f x); simpl; [destruct (g x); now rewrite IH | exact IH].
Qed.

Lemma candidates_one_pass (temp : option Temp) (form : option Form) (speed : option Speed)
  (style : Style) :
  candidates temp form speed style =
  filter (fun p => temp_ok temp p && form_ok form p && speed_ok speed p && style_ok style p)
    mockPlaces.
Proof.
  unfold candidates. rewrite !filter_filter.
  apply filter_ext. intros p. now rewrite !andb_assoc.
Qed.

Lemma mapi_from_nth_error {A B : Type} (f : A -> nat -> B) (l : list A) :
  forall (k i : nat),
    nth_error (mapi_from f k l) i = option_map (fun p => f p (k + i)) (nth_error l i).
Proof.
  induction l as [|x l IH]; intros k i; simpl.
  - now destruct i.
  - destruct i as [|i]; simpl.
    + now rewrite Nat.add_0_r.
    + rewrite IH. now rewrite Nat.add_succ_r.
Qed.

Lemma mapi_from_length {A B : Type} (f : A -> nat -> B) (l : list A) :
  forall k, List.length (mapi_from f k l) = List.length l.
Proof. induction l as [|x l IH]; intros k; simpl; [reflexivity | now rewrite IH]. Qed.

Lemma mapi_from_project {A B : Type} (f : A -> nat -> B) (g : B -> A) (l : list A) :
  (forall p idx, g (f p idx) = p) ->
  forall k, map g (mapi_from f k l) = l.
Proof.
  intros Hg. induction l as [|x l IH]; intros k; simpl; [reflexivity|].
  now rewrite Hg, IH.
Qed.

Section Properties.
Context {host : Host}.

Lemma filterPlaces_places (temp : option Temp) (form : option Form) (speed : option Speed)
  (style : Style) :
  map Nearby.place (filterPlaces temp form speed style) =
  firstn 8 (if nonempty (candidates temp form speed style)
            then candidates temp form speed style else fallback temp).
Proof. unfold filterPlaces, mapi, slice0. now apply mapi_from_project. Qed.

(** C2.  For every preference input, the candidates of [filterPlaces] are
    the places that pass four predicates applied in sequence: temperature
    (no constraint when unset), form (none when unset), pace (none when
    unset) and style (always); the result is the first 8 of the candidates
    whenever there is a candidate (of the fallback otherwise), so it has
    at most 8 entries, and the entry at position [i] (from 0) carries the
    distance text of [(i + 1) * 0.4] followed by " km", which depends on
    the position only. *)
Theorem filterPlaces_filters_truncates_annotates :
  forall (temp : option Temp) (form : option Form) (speed : option Speed) (style : Style),
    let selected := candidates temp form speed style in
    let result := filterPlaces temp form speed style in
    selected =
      filter (fun p => temp_ok temp p && form_ok form p && speed_ok speed p && style_ok style p)
        mockPlaces /\
    (forall p, In p selected <->
       In p mockPlaces /\
       (forall t, temp = Some t -> Place.type p = t) /\
       (forall f, form = Some f -> Place.form p = f) /\
       (forall s, speed = Some s -> Place.speed p = s) /\
       Place.style p = style) /\
    map Nearby.place result =
      firstn 8 (if nonempty selected then selected else fallback temp) /\
    (selected <> [] -> map Nearby.place result = firstn 8 selected) /\
    List.length result <= 8 /\
    (forall i n, nth_error result i = Some n ->
       Nearby.distance n =
       Number_toString ((Number_of_nat i + 1) * 0.4)%float ++ " km").
Proof.
  intros temp form speed style selected result.
  split; [apply candidates_one_pass|].
  split.
  { intros p. subst selected. rewrite candidates_one_pass, filter_In.
    rewrite !andb_true_iff, temp_ok_iff, form_ok_iff, speed_ok_iff.
    unfold style_ok. rewrite Style_eqb_eq. tauto. }
  split; [apply filterPlaces_places|].
  split.
  { intros Hne. subst result. rewrite filterPlaces_places. fold selected.
    destruct selected; [contradiction | reflexivity]. }
  split.
  { subst result. unfold filterPlaces, mapi, slice0.
    rewrite mapi_from_length. apply firstn_le_length. }
  intros i n Hn. subst result. unfold filterPlaces, mapi in Hn.
  rewrite mapi_from_nth_error in Hn.
  destruct (nth_error _ i) as [p|]; simpl in Hn; [|discriminate].
  injection Hn as <-. reflexivity.
Qed.

(** C4.  For every preference combination whose four-predicate filtering
    leaves no candidate, [filterPlaces] returns a non-empty result whose
    places are exactly the places matching the temperature (all places
    when the temperature is unset): form, pace and style play no part. *)
Theorem filterPlaces_fallback :
  forall (temp : option Temp) (form : option Form) (speed : option Speed) (style : Style),
    candidates temp form speed style = [] ->
    let result := filterPlaces temp form speed style in
    result <> [] /\
    map Nearby.place result = filter (temp_ok temp) mockPlaces /\
    (temp = None -> map Nearby.place result = mockPlaces) /\
    (forall n, In n result ->
       In (Nearby.place n) mockPlaces /\
       (forall t, temp = Some t -> Place.type (Nearby.place n) = t)).
Proof.
  intros temp form speed style Hempty result.
  assert (Hplaces : map Nearby.place result = filter (temp_ok temp) mockPlaces).
  { subst result. rewrite filterPlaces_places, Hempty. cbn [nonempty]. unfold fallback.
    destruct temp as [[|]|]; reflexivity. }
  split.
  { intros Hnil. rewrite Hnil in Hplaces. destruct temp as [[|]|]; discriminate Hplaces. }
  split; [exact Hplaces|].
  split.
  { intros ->. exact Hplaces. }
  intros n Hn.
  assert (Hin : In (Nearby.place n) (filter (temp_ok temp) mockPlaces)).
  { rewrite <- Hplaces. now apply in_map. }
  apply filter_In in Hin. destruct Hin as [Hin Hok].
  split; [exact Hin | now apply temp_ok_iff].
Qed.

End Properties.

Lemma filterPlaces_witness :
  candidates (Some hot) (Some soup) (Some sit) rich <> [] /\
  map (fun n => Place.id (Nearby.place n))
    (filterPlaces (host := exampleHost) (Some hot) (Some soup) (Some sit) rich) = ["p4"].
Proof.
  split; [discriminate|].
  destruct (filterPlaces_filters_truncates_annotates (host := exampleHost)
              (Some hot) (Some soup) (Some sit) rich) as (_ & _ & _ & Hfirst & _).
  rewrite <- map_map, Hfirst by discriminate. reflexivity.
Defined.

Lemma filterPlaces_fallback_witness :
  candidates (Some cold) None None rich = [] /\
  map (fun n => Place.id (Nearby.place n))
    (filterPlaces (host := exampleHost) (Some cold) None None rich) = ["p3"; "p8"].
Proof.
  split; [reflexivity|].
  destruct (filterPlaces_fallback (host := exampleHost) (Some cold) None None rich eq_refl)
    as (_ & Hplaces & _).
  rewrite <- map_map, Hplaces. reflexivity.
Defined.

Section FlowProperties.
Context {host : Host}.

(** ** The history log *)

(** C5.  Appending puts the new entry in front: after an append of entry
    A and then of entry B the log reads B, A and then what it held before;
    after the clear action of the Log screen the log reads empty. *)
Theorem log_append_newest_first :
  forall (a r1 r2 : App) (clk1 clk2 : Clock) (text1 text2 : string),
    log (saveEnergy r2 clk2 text2 (saveEnergy r1 clk1 text1 a)) =
      newEntry r2 clk2 text2 :: newEntry r1 clk1 text1 :: log a /\
    log (saveEnergy r2 clk2 text2 (saveEnergy r1 clk1 text1 (onLog ClickClear a))) =
      [newEntry r2 clk2 text2; newEntry r1 clk1 text1] /\
    log (onLog ClickClear a) = [] /\
    (forall w : World, screen (app w) = Screen.log ->
       log (app (handle ClickClear w)) = []).
Proof.
  intros a r1 r2 clk1 clk2 text1 text2.
  repeat split.
  intros w Hscreen. unfold handle. rewrite Hscreen. reflexivity.
Qed.

(** ** The Choose flow *)

Lemma onApp_same (f : App -> App) (w : World) : f (app w) = app w -> onApp f w = w.
Proof. intros H. unfold onApp. rewrite H. now destruct w. Qed.

(** C6.  On the Choose screen "next" does nothing at step 0 while the
    temperature is unset and leads to step 1 once it is set; likewise at
    step 1 with the form (to step 2) and at step 2 with the pace (to the
    Result screen), whatever the richness is.  From Home, the trace start,
    hot, next, soup, next, fast, next, with the richness left at its
    default 0.5, reaches the Result screen with the tags hot, soup, light,
    fast, in this order. *)
Theorem choose_flow_gating_and_trace :
  (forall w : World,
     screen (app w) = Screen.choose -> chooseStep (app w) = 0%Z ->
     (temp (app w) = None -> handle ClickNext w = w) /\
     (temp (app w) <> None -> handle ClickNext w = onApp (setChooseStep 1) w)) /\
  (forall w : World,
     screen (app w) = Screen.choose -> chooseStep (app w) = 1%Z ->
     (form (app w) = None -> handle ClickNext w = w) /\
     (form (app w) <> None -> handle ClickNext w = onApp (setChooseStep 2) w)) /\
  (forall w : World,
     screen (app w) = Screen.choose -> chooseStep (app w) = 2%Z ->
     (speed (app w) = None -> handle ClickNext w = w) /\
     (speed (app w) <> None -> handle ClickNext w = onApp (setScreen Screen.state) w)) /\
  (forall w : World,
     screen (app w) = Screen.home ->
     let w1 := handle ClickStart w in
     let w2 := handle ClickNext (handle (ClickTemp hot) w1) in
     let w3 := handle ClickNext (handle (ClickForm soup) w2) in
     let w4 := handle ClickNext (handle (ClickSpeed fast) w3) in
     (screen (app w1) = Screen.choose /\ chooseStep (app w1) = 0%Z /\
      richness (app w1) = 0.5%float) /\
     (screen (app w2) = Screen.choose /\ chooseStep (app w2) = 1%Z) /\
     (screen (app w3) = Screen.choose /\ chooseStep (app w3) = 2%Z) /\
     screen (app w4) = Screen.state /\
     richness (app w4) = 0.5%float /\
     style (derived (app w4)) = light /\
     tags (derived (app w4)) =
       [temp_label hot; form_label soup; style_label light; speed_label fast]).
Proof.
  split; [|split; [|split]].
  - intros w Hs Hc. unfold handle. rewrite Hs.
    split; intros Ht.
    + apply onApp_same. unfold onChoose. rewrite Hc, Ht. reflexivity.
    + unfold onApp. f_equal. unfold onChoose, primaryClick, nextChoose. rewrite Hc.
      destruct (temp (app w)); [reflexivity | contradiction].
  - intros w Hs Hc. unfold handle. rewrite Hs.
    split; intros Ht.
    + apply onApp_same. unfold onChoose. rewrite Hc, Ht. reflexivity.
    + unfold onApp. f_equal. unfold onChoose, primaryClick, nextChoose. rewrite Hc.
      destruct (form (app w)); [reflexivity | contradiction].
  - intros w Hs Hc. unfold handle. rewrite Hs.
    split; intros Ht.
    + apply onApp_same. unfold onChoose. rewrite Hc, Ht. reflexivity.
    + unfold onApp. f_equal. unfold onChoose, primaryClick, nextChoose. rewrite Hc.
      destruct (speed (app w)); [reflexivity | contradiction].
  - intros [a pending urls] Hs. destruct a. cbn in Hs. subst. cbv zeta.
    repeat split; reflexivity.
Qed.

End FlowProperties.

Lemma log_append_witness :
  screen (app exampleLogScreen) = Screen.log /\
  List.length (log (app exampleLogScreen)) = 1 /\
  log (app (handle (host := exampleHost) ClickClear exampleLogScreen)) = [].
Proof.
  split; [reflexivity|]. split; [reflexivity|].
  destruct (log_append_newest_first (host := exampleHost)
              (app exampleLogScreen) (app exampleLogScreen) (app exampleLogScreen)
              exampleClock exampleClock "" "") as (_ & _ & _ & Hclear).
  apply Hclear. reflexivity.
Defined.

Lemma choose_flow_witness :
  screen (app (handleAll (host := exampleHost)
    [ClickStart; ClickTemp hot; ClickNext; ClickForm soup; ClickNext;
     ClickSpeed fast; ClickNext] (initialWorld []))) = Screen.state /\
  tags (derived (app (handleAll (host := exampleHost)
    [ClickStart; ClickTemp hot; ClickNext; ClickForm soup; ClickNext;
     ClickSpeed fast; ClickNext] (initialWorld [])))) =
  ["熱食"; "湯的"; "清爽"; "快點"].
Proof.
  destruct (choose_flow_gating_and_trace (host := exampleHost)) as (_ & _ & _ & Htrace).
  destruct (Htrace (initialWorld []) eq_refl) as (_ & _ & _ & Hscreen & _ & _ & Htags).
  split; [exact Hscreen | exact Htags].
Defined.

(** ** The persisted log *)

Section StorageProperties.
Context {host : Host}.

(** C9.  Reading the persisted log at startup never throws to the
    component: the initialiser of the hook always returns.  What it
    returns is the empty log when the store cannot be read, when nothing
    (or the empty text) is stored under the key, and when what is stored
    fails to parse, and the component then starts on the empty log.  A
    text that parses is returned as [JSON.parse] gives it; when that is
    an array of entries the component starts on it.  A write that throws
    is swallowed: the effect returns normally, the store is what it was,
    and the state of the component (so its log) is untouched and can be
    appended to. *)
Theorem useLocalStorageLog_tolerates_storage :
  forall (ls : LocalStorage),
    (exists value, useLocalStorageLog_init ls = Ok value) /\
    (readable ls = false ->
       useLocalStorageLog_init ls = Ok (Parsed.array []) /\
       mount ls = started (initialApp [])) /\
    (readable ls = true -> items ls LS_KEY = None \/ items ls LS_KEY = Some "" ->
       useLocalStorageLog_init ls = Ok (Parsed.array []) /\
       mount ls = started (initialApp [])) /\
    (forall raw, readable ls = true -> items ls LS_KEY = Some raw -> JSON_parse raw = None ->
       useLocalStorageLog_init ls = Ok (Parsed.array []) /\
       mount ls = started (initialApp [])) /\
    (forall raw value, readable ls = true -> items ls LS_KEY = Some raw -> raw <> "" ->
       JSON_parse raw = Some value -> useLocalStorageLog_init ls = Ok value) /\
    (forall raw entries, readable ls = true -> items ls LS_KEY = Some raw -> raw <> "" ->
       JSON_parse raw = Some (Parsed.array entries) -> mount ls = started (initialApp entries)) /\
    (forall entries, exists ls', useLocalStorageLog_effect ls entries = Ok ls') /\
    (forall entries, writable ls = false -> useLocalStorageLog_effect ls entries = Ok ls) /\
    (forall (a : App), writable ls = false -> commit ls (log a) a = Ok (ls, a)) /\
    (forall (a r : App) (clk : Clock) (text : string), writable ls = false ->
       and_then (commit ls (log a) a) (fun '(_, a') => Ok (log (saveEnergy r clk text a'))) =
       Ok (newEntry r clk text :: log a)).
Proof.
  intros ls.
  assert (Hinit : exists value, useLocalStorageLog_init ls = Ok value).
  { unfold useLocalStorageLog_init, getItem.
    destruct (readable ls); cbn; [|now eexists].
    destruct (items ls LS_KEY) as [raw|]; [|now eexists].
    destruct (String.eqb raw ""); [now eexists|].
    destruct (JSON_parse raw); cbn; now eexists. }
  assert (Hwrite : forall entries, writable ls = false ->
                     useLocalStorageLog_effect ls entries = Ok ls).
  { intros entries Hw. unfold useLocalStorageLog_effect, setItem. now rewrite Hw. }
  assert (Hstart : useLocalStorageLog_init ls = Ok (Parsed.array []) ->
                   useLocalStorageLog_init ls = Ok (Parsed.array []) /\
                   mount ls = started (initialApp [])).
  { intros H. split; [exact H|]. unfold mount. now rewrite H. }
  assert (Hparsed : forall raw value, readable ls = true -> items ls LS_KEY = Some raw ->
                      raw <> "" -> JSON_parse raw = Some value ->
                      useLocalStorageLog_init ls = Ok value).
  { intros raw value Hr Hraw Hne Hparse. unfold useLocalStorageLog_init, getItem.
    rewrite Hr. cbn. rewrite Hraw, Hparse.
    destruct (String.eqb_spec raw ""); [contradiction | reflexivity]. }
  split; [exact Hinit|].
  split.
  { intros Hr. apply Hstart. unfold useLocalStorageLog_init, getItem. now rewrite Hr. }
  split.
  { intros Hr Hnone. apply Hstart. unfold useLocalStorageLog_init, getItem. rewrite Hr.
    destruct Hnone as [-> | ->]; reflexivity. }
  split.
  { intros raw Hr Hraw Hparse. apply Hstart. unfold useLocalStorageLog_init, getItem.
    rewrite Hr. cbn. rewrite Hraw, Hparse. now destruct (String.eqb raw ""). }
  split; [exact Hparsed|].
  split.
  { intros raw entries Hr Hraw Hne Hparse. unfold mount.
    now rewrite (Hparsed raw _ Hr Hraw Hne Hparse). }
  split.
  { intros entries. unfold useLocalStorageLog_effect, setItem.
    destruct (writable ls); cbn; now eexists. }
  split; [exact Hwrite|].
  split.
  { intros a Hw. unfold commit. now rewrite Hwrite. }
  intros a r clk text Hw. unfold commit. rewrite Hwrite by exact Hw. reflexivity.
Qed.

End StorageProperties.

Lemma useLocalStorageLog_witness :
  (readable exampleStorage = true /\ items exampleStorage LS_KEY = Some "[{" /\
   JSON_parse (Host := exampleHost) "[{" = None /\
   useLocalStorageLog_init (host := exampleHost) exampleStorage = Ok (Parsed.array []) /\
   mount (host := exampleHost) exampleStorage = started (initialApp [])) /\
  (readable brokenStorage = false /\
   useLocalStorageLog_init (host := exampleHost) brokenStorage = Ok (Parsed.array [])) /\
  (readable savedStorage = true /\ items savedStorage LS_KEY = Some "[{}]" /\
   JSON_parse (Host := echoHost) "[{}]" = Some (Parsed.array (log (app exampleWentOut))) /\
   mount (host := echoHost) savedStorage = started (initialApp (log (app exampleWentOut)))) /\
  (writable exampleStorage = false /\
   commit (host := exampleHost) exampleStorage (log (app exampleWentOut)) (app exampleWentOut)
   = Ok (exampleStorage, app exampleWentOut)).
Proof.
  destruct (useLocalStorageLog_tolerates_storage (host := exampleHost) exampleStorage)
    as (_ & _ & _ & Hparse & _ & _ & _ & _ & Hcommit & _).
  destruct (useLocalStorageLog_tolerates_storage (host := exampleHost) brokenStorage)
    as (_ & Hread & _).
  destruct (useLocalStorageLog_tolerates_storage (host := echoHost) savedStorage)
    as (_ & _ & _ & _ & _ & Hmount & _).
  split.
  { split; [reflexivity|]. split; [reflexivity|]. split; [reflexivity|].
    apply (Hparse "[{"); reflexivity. }
  split.
  { split; [reflexivity|]. apply Hread. reflexivity. }
  split.
  { split; [reflexivity|]. split; [reflexivity|]. split; [reflexivity|].
    apply (Hmount "[{}]"); [reflexivity | reflexivity | discriminate | reflexivity]. }
  split; [reflexivity|]. apply Hcommit. reflexivity.
Defined.

(** ** The map action *)

Lemma append_assoc (a b c : string) : (a ++ b) ++ c = a ++ (b ++ c).
Proof. induction a as [|ch a IH]; simpl; [reflexivity | now rewrite IH]. Qed.

Lemma nth_error_last {A : Type} (l : list A) (x : A) :
  nth_error (l ++ [x]) (List.length l) = Some x.
Proof. induction l as [|y l IH]; simpl; [reflexivity | exact IH]. Qed.

Lemma remove_nth_last {A : Type} (l : list A) (x : A) :
  remove_nth (List.length l) (l ++ [x]) = l.
Proof. induction l as [|y l IH]; simpl; [reflexivity | now rewrite IH]. Qed.

Section MapProperties.
Context {host : Host}.

Lemma handle_ClickOpenMaps_elsewhere (geolocation : bool) (src : RandomSource) (w : World) :
  screen (app w) <> Screen.recommend ->
  handle (ClickOpenMaps geolocation src) w = w.
Proof.
  intros Hs. unfold handle.
  destruct (screen (app w)) eqn:E; try contradiction; apply onApp_same; try reflexivity.
  unfold onChoose.
  destruct (chooseStep (app w) =? 0)%Z; [reflexivity|].
  destruct (chooseStep (app w) =? 1)%Z; [reflexivity|].
  destruct (chooseStep (app w) =? 2)%Z; reflexivity.
Qed.

(** C10.  The map action leaves the history log as it is when the device
    has no geolocation, and when the request is denied or fails; in those
    cases the address opened is the search address without coordinates.
    Using the action opens nothing and appends nothing while the request
    is pending; an entry is appended when, and only when, the request
    succeeds, and then the address opened carries the coordinates. *)
Theorem map_action_log_frame :
  forall (w : World),
    (forall src,
       let q := run (buildMapsQuery (tags (derived (app w)))) src in
       let w' := openMapsNearby false src w in
       log (app w') = log (app w) /\
       opened w' = plainSearchUrl q :: opened w /\
       geoPending w' = geoPending w) /\
    (forall src,
       let q := run (buildMapsQuery (tags (derived (app w)))) src in
       let w' := openMapsNearby true src w in
       log (app w') = log (app w) /\
       opened w' = opened w /\
       geoPending w' = (geoPending w ++ [{| render := app w; query := q |}])%list) /\
    (forall geolocation src,
       log (app (handle (ClickOpenMaps geolocation src) w)) = log (app w)) /\
    (forall k code, log (app (handle (GeoError k code) w)) = log (app w)) /\
    (forall k code req,
       nth_error (geoPending w) k = Some req ->
       opened (handle (GeoError k code) w) = plainSearchUrl (query req) :: opened w) /\
    (forall k latitude longitude clk req,
       nth_error (geoPending w) k = Some req ->
       let w' := handle (GeoSuccess k latitude longitude clk) w in
       log (app w') = newEntry (render req) clk placeholderText :: log (app w) /\
       opened w' = buildMapsSearchUrl latitude longitude (query req) :: opened w) /\
    (forall k latitude longitude clk,
       nth_error (geoPending w) k = None ->
       handle (GeoSuccess k latitude longitude clk) w = w) /\
    (forall latitude longitude q,
       buildMapsSearchUrl latitude longitude q =
       plainSearchUrl q ++ "/@" ++ Number_toString latitude ++ ","
         ++ Number_toString longitude ++ ",15z").
Proof.
  intros w.
  split; [intros src; cbv zeta; repeat split|].
  split; [intros src; cbv zeta; repeat split|].
  split.
  { intros geolocation src.
    destruct (screen (app w)) eqn:E;
      try (rewrite handle_ClickOpenMaps_elsewhere by (rewrite E; discriminate); reflexivity).
    unfold handle. rewrite E. cbn [onRecommend]. now destruct geolocation. }
  split.
  { intros k code. unfold handle, answer.
    destruct (nth_error (geoPending w) k); reflexivity. }
  split.
  { intros k code req Hreq. unfold handle, answer. rewrite Hreq. reflexivity. }
  split.
  { intros k latitude longitude clk req Hreq. cbv zeta. unfold handle, answer.
    rewrite Hreq. split; reflexivity. }
  split.
  { intros k latitude longitude clk Hnone. unfold handle, answer. now rewrite Hnone. }
  intros latitude longitude q. unfold buildMapsSearchUrl, plainSearchUrl.
  now rewrite !append_assoc.
Qed.

(** C1, as the code has it.  From the Recommend screen, using the map
    action and having the position request succeed appends to the history
    log an entry whose description is the fixed placeholder, built from
    the answers of the render the action was used in, and opens the search
    address with the coordinates; the screen is Recommend before and
    after: the flow does not move to the Saved screen. *)
Theorem map_action_success_appends_and_stays :
  forall (w : World) (src : RandomSource) (latitude longitude : float) (clk : Clock),
    screen (app w) = Screen.recommend ->
    let q := run (buildMapsQuery (tags (derived (app w)))) src in
    let w1 := handle (ClickOpenMaps true src) w in
    let w2 := handle (GeoSuccess (List.length (geoPending w)) latitude longitude clk) w1 in
    screen (app w1) = Screen.recommend /\
    screen (app w2) = Screen.recommend /\
    log (app w2) = newEntry (app w) clk placeholderText :: log (app w) /\
    LogEntry.choiceText (newEntry (app w) clk placeholderText) = "（前往附近覓食）" /\
    LogEntry.tags (newEntry (app w) clk placeholderText) = tags (derived (app w)) /\
    geoStatus (app w2) = "已準備好：" ++ q /\
    opened w2 = buildMapsSearchUrl latitude longitude q :: opened w /\
    geoPending w2 = geoPending w.
Proof.
  intros w src latitude longitude clk Hs. cbv zeta.
  assert (Hclick : handle (ClickOpenMaps true src) w = openMapsNearby true src w).
  { unfold handle. now rewrite Hs. }
  rewrite Hclick. unfold openMapsNearby. cbn [negb].
  unfold handle, answer, getCurrentPosition. cbn [geoPending app opened onApp].
  rewrite nth_error_last, remove_nth_last.
  cbn. rewrite Hs. repeat split; reflexivity.
Qed.

End MapProperties.

Lemma map_action_log_frame_witness :
  nth_error (geoPending examplePending) 0 =
    Some {| render := app exampleRecommend; query := "粥 烏龍麵" |} /\
  log (app (handle (host := exampleHost) (GeoError 0 1) examplePending)) = [] /\
  opened (handle (host := exampleHost) (GeoError 0 1) examplePending) =
    ["https://www.google.com/maps/search/粥 烏龍麵"] /\
  List.length
    (log (app (handle (host := exampleHost) (GeoSuccess 0 25 121.5 exampleClock)
                 examplePending))) = 1.
Proof.
  destruct (map_action_log_frame (host := exampleHost) examplePending)
    as (_ & _ & _ & Hlog & Hopen & Hsuccess & _).
  split; [reflexivity|].
  split; [rewrite Hlog; reflexivity|].
  split.
  { rewrite (Hopen 0 1%Z _ eq_refl). reflexivity. }
  destruct (Hsuccess 0 25%float 121.5%float exampleClock _ eq_refl) as [Happend _].
  rewrite Happend. reflexivity.
Defined.

Lemma map_action_success_witness :
  screen (app exampleRecommend) = Screen.recommend /\
  screen (app exampleWentOut) = Screen.recommend /\
  map LogEntry.choiceText (log (app exampleWentOut)) = ["（前往附近覓食）"].
Proof.
  destruct (map_action_success_appends_and_stays (host := exampleHost)
              exampleRecommend exampleSource 25 121.5 exampleClock eq_refl)
    as (_ & Hscreen & Hlog & _).
  split; [reflexivity|].
  split; [exact Hscreen|].
  unfold exampleWentOut, handleAll. cbn [fold_left].
  change (List.length (geoPending exampleRecommend)) with 0%nat in Hlog.
  rewrite Hlog. reflexivity.
Defined.

(** C1 as the specification words it fails: after the map action and a
    successful position request the screen is Recommend, not Saved, though
    the placeholder entry has been appended. *)
Lemma map_action_does_not_reach_saved :
  screen (app exampleRecommend) = Screen.recommend /\
  screen (app exampleWentOut) <> Screen.energy /\
  screen (app exampleWentOut) = Screen.recommend /\
  map LogEntry.choiceText (log (app exampleWentOut)) = [placeholderText].
Proof.
  split; [reflexivity|].
  split; [vm_compute; discriminate|].
  split; reflexivity.
Qed.

(* ================================================================== *)
(** * Further properties of the code *)

(** ** [clamp] *)

Lemma is_nan_Prim2SF (x : float) :
  PrimFloat.is_nan x = false <-> Prim2SF x <> S754_nan.
Proof.
  unfold PrimFloat.is_nan. rewrite eqb_spec. unfold SFeqb.
  destruct (Prim2SF x) as [s|s| |s m e]; simpl.
  - split; [discriminate | reflexivity].
  - destruct s; split; try discriminate; reflexivity.
  - split; [discriminate | intros H; now contradiction H].
  - rewrite Z.compare_refl, Pos.compare_cont_spec, Pos.compare_refl.
    destruct s; simpl; split; try discriminate; reflexivity.
Qed.

Lemma SFcompare_defined (x y : spec_float) :
  x <> S754_nan -> y <> S754_nan -> exists c, SFcompare x y = Some c.
Proof.
  intros Hx Hy.
  destruct x as [sx|sx| |sx mx ex], y as [sy|sy| |sy my ey]; simpl;
    try contradiction; eauto.
Qed.

Lemma SFcompare_nan (x y : spec_float) :
  SFcompare x y <> None -> x <> S754_nan /\ y <> S754_nan.
Proof.
  destruct x as [sx|sx| |sx mx ex], y as [sy|sy| |sy my ey]; simpl; intros H;
    split; try discriminate; try (now contradiction H).
Qed.

Lemma ltb_not_nan (x y : float) :
  (x <? y)%float = true -> PrimFloat.is_nan x = false /\ PrimFloat.is_nan y = false.
Proof.
  rewrite ltb_spec, !is_nan_Prim2SF. unfold SFltb. intros H.
  apply SFcompare_nan. destruct (SFcompare _ _); [discriminate | discriminate].
Qed.

Lemma leb_not_nan (x y : float) :
  (x <=? y)%float = true -> PrimFloat.is_nan x = false /\ PrimFloat.is_nan y = false.
Proof.
  rewrite leb_spec, !is_nan_Prim2SF. unfold SFleb. intros H.
  apply SFcompare_nan. destruct (SFcompare _ _); [discriminate | discriminate].
Qed.

Lemma ltb_leb (x y : float) : (x <? y)%float = true -> (x <=? y)%float = true.
Proof.
  rewrite ltb_spec, leb_spec. unfold SFltb, SFleb.
  destruct (SFcompare _ _) as [[ | | ]|]; congruence.
Qed.

Lemma not_ltb_leb (x y : float) :
  PrimFloat.is_nan x = false -> PrimFloat.is_nan y = false ->
  (x <? y)%float = false -> (y <=? x)%float = true.
Proof.
  rewrite !is_nan_Prim2SF, ltb_spec, leb_spec. unfold SFltb, SFleb. intros Hx Hy.
  rewrite (SFcompare_antisym (Prim2SF x) (Prim2SF y)).
  destruct (SFcompare_defined _ _ Hx Hy) as [c ->]. destruct c; simpl; congruence.
Qed.

Lemma Math_max_0 (n : float) :
  PrimFloat.is_nan n = false ->
  Math_max 0 n = (if (0 <? n)%float then n else 0%float).
Proof.
  intros Hn. unfold Math_max. rewrite Hn.
  change (PrimFloat.is_nan 0) with false. cbn [orb].
  destruct (0 <? n)%float; [reflexivity|].
  change (PrimFloat.get_sign 0) with false.
  now destruct (n <? 0)%float.
Qed.

Lemma Math_min_1 (m : float) :
  PrimFloat.is_nan m = false ->
  Math_min 1 m = (if (1 <? m)%float then 1%float else m).
Proof.
  intros Hm. unfold Math_min. rewrite Hm.
  change (PrimFloat.is_nan 1) with false. cbn [orb].
  destruct (1 <? m)%float; [reflexivity|].
  change (PrimFloat.get_sign 1) with false.
  now destruct (m <? 1)%float.
Qed.

Lemma clamp_nan (n : float) :
  PrimFloat.is_nan n = true -> clamp n 0 1 = PrimFloat.nan.
Proof.
  intros Hn. unfold clamp, Math_max. rewrite Hn, orb_true_r.
  reflexivity.
Qed.

Lemma clamp_not_nan (n : float) :
  PrimFloat.is_nan n = false ->
  clamp n 0 1 =
  (if (0 <? n)%float then (if (1 <? n)%float then 1 else n) else 0)%float.
Proof.
  intros Hn. unfold clamp. rewrite (Math_max_0 n Hn).
  destruct (0 <? n)%float.
  - now rewrite (Math_min_1 n Hn).
  - reflexivity.
Qed.

(** X1.  [clamp(n, 0, 1)] saturates: it is 0 for every [n <= 0], 1 for
    every [n > 1], and [n] itself for [0 < n <= 1]; for every [n] that is
    not NaN the result lies between 0 and 1, and for NaN it is NaN.  So
    the warmth stored in a log entry is NaN or within [0, 1]. *)
Theorem clamp_saturates :
  forall n : float,
    ((n <=? 0)%float = true -> clamp n 0 1 = 0%float) /\
    ((1 <? n)%float = true -> clamp n 0 1 = 1%float) /\
    ((0 <? n)%float = true -> (n <=? 1)%float = true -> clamp n 0 1 = n) /\
    (PrimFloat.is_nan n = false ->
       (0 <=? clamp n 0 1)%float = true /\ (clamp n 0 1 <=? 1)%float = true) /\
    (PrimFloat.is_nan n = true -> PrimFloat.is_nan (clamp n 0 1) = true) /\
    (forall (host : Host) (render : App) (clk : Clock) (text : string),
       exists s, LogEntry.sig (newEntry render clk text) = Some s /\
         (PrimFloat.is_nan (Sig.warmth s) = true \/
          (0 <=? Sig.warmth s)%float = true /\ (Sig.warmth s <=? 1)%float = true)).
Proof.
  intros n.
  assert (Hrange : forall x, PrimFloat.is_nan x = false ->
            (0 <=? clamp x 0 1)%float = true /\ (clamp x 0 1 <=? 1)%float = true).
  { intros x Hx. rewrite (clamp_not_nan x Hx).
    destruct (0 <? x)%float eqn:H0; [|split; reflexivity].
    destruct (1 <? x)%float eqn:H1; [split; reflexivity|].
    split; [now apply ltb_leb|].
    apply not_ltb_leb; [reflexivity | exact Hx | exact H1]. }
  assert (Hnan : forall x, PrimFloat.is_nan x = true -> PrimFloat.is_nan (clamp x 0 1) = true).
  { intros x Hx. now rewrite (clamp_nan x Hx). }
  split.
  { intros Hle. destruct (leb_not_nan _ _ Hle) as [Hn _].
    rewrite (clamp_not_nan n Hn), (leb_not_gt _ _ Hle). reflexivity. }
  split.
  { intros Hgt. destruct (ltb_not_nan _ _ Hgt) as [_ Hn].
    rewrite (clamp_not_nan n Hn), Hgt.
    assert (H01 : (0 <? 1)%float = true) by reflexivity.
    now rewrite (ltb_trans 0 1 n H01 Hgt). }
  split.
  { intros Hpos Hle. destruct (ltb_not_nan _ _ Hpos) as [_ Hn].
    rewrite (clamp_not_nan n Hn), Hpos, (leb_not_gt _ _ Hle). reflexivity. }
  split; [apply Hrange|].
  split; [apply Hnan|].
  intros host render clk text. eexists. split; [reflexivity|]. cbn [Sig.warmth].
  destruct (PrimFloat.is_nan (0.35 + richness render * 0.65)%float) eqn:E.
  - left. now apply Hnan.
  - right. now apply Hrange.
Qed.

Lemma clamp_saturates_witness :
  ((-1 <=? 0)%float = true /\ clamp (-1) 0 1 = 0%float) /\
  ((1 <? 2)%float = true /\ clamp 2 0 1 = 1%float) /\
  ((0 <? 0.675)%float = true /\ (0.675 <=? 1)%float = true /\ clamp 0.675 0 1 = 0.675%float).
Proof.
  destruct (clamp_saturates (-1)) as (Hlow & _).
  destruct (clamp_saturates 2) as (_ & Hhigh & _).
  destruct (clamp_saturates 0.675) as (_ & _ & Hmid & _).
  repeat split; try reflexivity.
Defined.

(** ** The filter engine, on every input *)

Lemma In_firstn {A : Type} (n : nat) (l : list A) (x : A) : In x (firstn n l) -> In x l.
Proof.
  intros H. rewrite <- (firstn_skipn n l). apply in_or_app. now left.
Qed.

Lemma NoDup_map_filter {A B : Type} (key : A -> B) (keep : A -> bool) :
  forall xs : list A, NoDup (map key xs) -> NoDup (map key (filter keep xs)).
Proof.
  intros xs. induction xs as [|x xs IH]; simpl; intros H; [constructor|].
  inversion H as [|y ys Hfresh Hrest]; subst.
  destruct (keep x); simpl; [|now apply IH].
  constructor; [|now apply IH].
  intros Hin. apply Hfresh. apply in_map_iff in Hin. destruct Hin as (z & Hz & Hin).
  apply filter_In in Hin. apply in_map_iff. exists z. tauto.
Qed.

Lemma NoDup_map_firstn {A B : Type} (f : A -> B) (n : nat) (l : list A) :
  NoDup (map f l) -> NoDup (map f (firstn n l)).
Proof.
  revert l. induction n as [|n IH]; intros [|x l] H; simpl; try constructor.
  - inversion H as [|y ys Hnotin Hrest]; subst.
    intros Hin. apply Hnotin. apply in_map_iff in Hin. destruct Hin as (z & Hz & Hin).
    apply in_map_iff. exists z. split; [exact Hz | now apply In_firstn in Hin].
  - inversion H; subst. now apply IH.
Qed.

Lemma mockPlaces_ids : NoDup (map Place.id mockPlaces).
Proof. cbn. repeat constructor; cbn; intuition discriminate. Qed.

Section FilterShape.
Context {host : Host}.

(** X2.  Whatever the preferences, [filterPlaces] returns between 1 and
    8 entries; their places are places of [mockPlaces] with pairwise
    different ids, and when a temperature is set every one of them has
    that temperature, in the fallback as well. *)
Theorem filterPlaces_shape :
  forall (temp : option Temp) (form : option Form) (speed : option Speed) (style : Style),
    let result := filterPlaces temp form speed style in
    1 <= List.length result <= 8 /\
    NoDup (map (fun n => Place.id (Nearby.place n)) result) /\
    (forall n, In n result ->
       In (Nearby.place n) mockPlaces /\
       (forall t, temp = Some t -> Place.type (Nearby.place n) = t)).
Proof.
  intros temp form speed style result.
  pose proof (filterPlaces_places temp form speed style) as Hplaces. fold result in Hplaces.
  set (chosen := if nonempty (candidates temp form speed style)
                 then candidates temp form speed style else fallback temp) in Hplaces.
  assert (Hsub : exists p, chosen = filter p mockPlaces /\
                   forall x, p x = true -> temp_ok temp x = true).
  { subst chosen. destruct (nonempty (candidates temp form speed style)).
    - rewrite candidates_one_pass. eexists. split; [reflexivity|].
      intros x Hx. cbv beta in Hx. rewrite !andb_true_iff in Hx. tauto.
    - exists (temp_ok temp). split; [reflexivity | auto]. }
  destruct Hsub as (p & Hchosen & Hp).
  assert (Hlen : List.length result = List.length (firstn 8 chosen)).
  { rewrite <- Hplaces. now rewrite length_map. }
  split.
  { rewrite Hlen. split; [|apply firstn_le_length].
    subst chosen. destruct (candidates temp form speed style) as [|c cs] eqn:E; cbn [nonempty].
    - unfold fallback. destruct temp as [[|]|]; cbn; lia.
    - cbn. lia. }
  split.
  { rewrite <- map_map, Hplaces, Hchosen.
    apply NoDup_map_firstn, NoDup_map_filter, mockPlaces_ids. }
  intros n Hn.
  assert (Hin : In (Nearby.place n) (firstn 8 chosen)).
  { rewrite <- Hplaces. now apply in_map. }
  apply In_firstn in Hin. rewrite Hchosen in Hin. apply filter_In in Hin.
  destruct Hin as [Hin Hpx]. split; [exact Hin|]. apply temp_ok_iff. now apply Hp.
Qed.

End FilterShape.

(** ** From the answers to the keyword pool *)

(** X3.  The pool [buildMapsQuery] draws from, for the tags of
    [computeTags]: it is fixed by the temperature, the form and the style
    (the pace plays no part); the generic keywords are used exactly when
    the temperature is unset (unless the answers are dry and light) or
    hot with the form unset, so never once temperature and form are set. *)
Theorem keywordPool_of_answers :
  forall (temp : option Temp) (form : option Form) (richness : float) (speed : option Speed),
    let d := computeTags temp form richness speed in
    keywordPool (tags d) =
      match temp, form, style d with
      | Some hot, Some soup, rich => keywords_rich_soup
      | Some hot, Some soup, light => keywords_light_soup
      | Some hot, Some dry, rich => keywords_rich_dry
      | Some hot, Some dry, light => keywords_light_dry
      | Some cold, Some dry, light => (keywords_light_dry ++ keywords_cold)%list
      | Some cold, _, _ => keywords_cold
      | None, Some dry, light => keywords_light_dry
      | _, _, _ => keywords_generic
      end /\
    (temp <> None -> form <> None ->
       forall k, In k (keywordPool (tags d)) -> ~ In k keywords_generic).
Proof.
  intros temp form richness speed d.
  assert (Hpool : keywordPool (tags d) =
      match temp, form, style d with
      | Some hot, Some soup, rich => keywords_rich_soup
      | Some hot, Some soup, light => keywords_light_soup
      | Some hot, Some dry, rich => keywords_rich_dry
      | Some hot, Some dry, light => keywords_light_dry
      | Some cold, Some dry, light => (keywords_light_dry ++ keywords_cold)%list
      | Some cold, _, _ => keywords_cold
      | None, Some dry, light => keywords_light_dry
      | _, _, _ => keywords_generic
      end).
  { subst d. unfold computeTags. cbn [tags style].
    destruct (0.55 <=? richness)%float;
      destruct temp as [[|]|], form as [[|]|], speed as [[|]|]; reflexivity. }
  split; [exact Hpool|].
  intros Ht Hf k Hin Hgen. rewrite Hpool in Hin.
  destruct temp as [[|]|]; [| |contradiction];
    destruct form as [[|]|]; try contradiction;
    destruct (style d); cbn in Hin, Hgen;
    repeat (destruct Hin as [<-|Hin]; [intuition discriminate|]); exact Hin.
Qed.

Lemma keywordPool_of_answers_witness :
  keywordPool (tags (computeTags (Some cold) (Some dry) 0.2 (Some fast))) =
    ["沙拉"; "健康餐盒"; "越南河粉"; "涼麵"; "沙拉"; "涼麵"; "生魚片"] /\
  ~ In "沙拉" keywords_generic.
Proof.
  destruct (keywordPool_of_answers (Some cold) (Some dry) 0.2 (Some fast)) as [Hpool Hnot].
  split; [exact Hpool|].
  apply Hnot; [discriminate | discriminate | rewrite Hpool; now left].
Defined.

(** ** What every reachable world keeps *)

Lemma Forall_remove_nth {A : Type} (P : A -> Prop) (k : nat) (l : list A) :
  Forall P l -> Forall P (remove_nth k l).
Proof.
  revert k. induction l as [|x l IH]; intros k H; destruct k; simpl; try constructor;
    inversion H; subst; auto.
Qed.

Ltac flow_forward :=
  repeat match goal with
         | H : ?P -> _ |- _ =>
             let HP := fresh in
             assert (HP : P) by first [lia | reflexivity | assumption | (left; reflexivity)
                                       | (right; left; reflexivity)
                                       | (right; right; reflexivity)];
             specialize (H HP); clear HP
         end.

Ltac flow_split :=
  repeat match goal with
         | H : _ /\ _ |- _ => destruct H
         end.

Ltac flow_finish :=
  repeat (progress (flow_forward; flow_split));
  repeat match goal with
         | H : _ \/ _ |- _ => destruct H
         end;
  try discriminate; try lia; try congruence;
  try (left; congruence); try (right; congruence);
  intuition (try discriminate; try lia; try congruence).

Ltac flow_solve :=
  unfold flowInvariant, answered in *; cbn in *;
  flow_split; repeat split; intros;
  first [ solve [flow_finish]
        | solve [repeat match goal with b : bool |- _ => destruct b end; flow_finish] ].

Section Invariant.
Context {host : Host}.

Lemma flowInvariant_initial (entries : list LogEntry.t) : flowInvariant (initialApp entries).
Proof. flow_solve. Qed.

Lemma flowInvariant_goBack (a : App) : flowInvariant a -> flowInvariant (goBack a).
Proof.
  destruct a as [lg sc st tm fm ri sp pt pr gs]. intros H.
  unfold goBack. cbn [screen chooseStep].
  destruct sc; try (destruct (Z.eqb_spec st 0)); flow_solve.
Qed.

Lemma flowInvariant_onHome (ev : Event) (a : App) :
  screen a = Screen.home -> flowInvariant a -> flowInvariant (onHome ev a).
Proof.
  destruct a as [lg sc st tm fm ri sp pt pr gs]. cbn [screen]. intros -> H.
  destruct ev; flow_solve.
Qed.

Lemma flowInvariant_onChoose (ev : Event) (a : App) :
  screen a = Screen.choose -> flowInvariant a -> flowInvariant (onChoose ev a).
Proof.
  destruct a as [lg sc st tm fm ri sp pt pr gs]. cbn [screen]. intros -> H.
  unfold onChoose, primaryClick, nextChoose. cbn [chooseStep temp form speed].
  destruct (Z.eqb_spec st 0); [|destruct (Z.eqb_spec st 1); [|destruct (Z.eqb_spec st 2)]];
    subst; destruct ev; try exact H;
    try destruct tm; try destruct fm; try destruct sp; flow_solve.
Qed.

Lemma flowInvariant_onState (ev : Event) (a : App) :
  screen a = Screen.state -> flowInvariant a -> flowInvariant (onState ev a).
Proof.
  destruct a as [lg sc st tm fm ri sp pt pr gs]. cbn [screen]. intros -> H.
  destruct ev; flow_solve.
Qed.

Lemma flowInvariant_onEnergy (ev : Event) (a : App) :
  screen a = Screen.energy -> flowInvariant a -> flowInvariant (onEnergy ev a).
Proof.
  destruct a as [lg sc st tm fm ri sp pt pr gs]. cbn [screen]. intros -> H.
  destruct ev; flow_solve.
Qed.

Lemma flowInvariant_onLog (ev : Event) (a : App) :
  screen a = Screen.log -> flowInvariant a -> flowInvariant (onLog ev a).
Proof.
  destruct a as [lg sc st tm fm ri sp pt pr gs]. cbn [screen]. intros -> H.
  destruct ev; flow_solve.
Qed.

Lemma flowInvariant_pressTimeout (src : RandomSource) (a : App) :
  flowInvariant a -> flowInvariant (pressTimeout src a).
Proof.
  destruct a as [lg sc st tm fm ri sp pt pr gs]. intros H. flow_solve.
Qed.

Lemma flowInvariant_longPressRandom (src : RandomSource) (a : App) :
  flowInvariant a -> flowInvariant (longPressRandom src a).
Proof.
  destruct a as [lg sc st tm fm ri sp pt pr gs]. intros H. flow_solve.
Qed.

Lemma flowInvariant_openLog (a : App) :
  flowInvariant a -> flowInvariant (setScreen Screen.log a).
Proof.
  destruct a as [lg sc st tm fm ri sp pt pr gs]. intros H. flow_solve.
Qed.

Lemma flowInvariant_setGeoStatus (text : string) (a : App) :
  flowInvariant a -> flowInvariant (setGeoStatus text a).
Proof.
  destruct a as [lg sc st tm fm ri sp pt pr gs]. intros H. exact H.
Qed.

Lemma flowInvariant_saveEnergy (r : App) (clk : Clock) (text : string) (a : App) :
  flowInvariant a -> flowInvariant (saveEnergy r clk text a).
Proof.
  destruct a as [lg sc st tm fm ri sp pt pr gs]. intros H. flow_solve.
Qed.

Lemma flowInvariant_place (r : App) (clk : Clock) (text : string) (a : App) :
  screen a = Screen.recommend -> flowInvariant a ->
  flowInvariant (setScreen Screen.energy (saveEnergy r clk text a)).
Proof.
  destruct a as [lg sc st tm fm ri sp pt pr gs]. cbn [screen]. intros -> H. flow_solve.
Qed.

Lemma worldInvariant_handle (ev : Event) (w : World) :
  worldInvariant w -> worldInvariant (handle ev w).
Proof.
  intros [Hflow Hpend].
  assert (Hanswer : forall f,
            (forall req w', worldInvariant w' -> worldInvariant (f req w')) ->
            forall k, worldInvariant (answer k f w)).
  { intros f Hf k. unfold answer. destruct (nth_error (geoPending w) k) as [req|];
      [|now split].
    apply Hf. split; [exact Hflow | now apply Forall_remove_nth]. }
  destruct ev;
    try (unfold handle; destruct (screen (app w)) eqn:Hs; cbn [onRecommend];
         first [ now split
               | split; [cbn [app onApp];
                         first [ now apply flowInvariant_onHome
                               | now apply flowInvariant_onChoose
                               | now apply flowInvariant_onState
                               | now apply flowInvariant_onEnergy
                               | now apply flowInvariant_onLog ]
                        | exact Hpend ] ]; fail).
  - (* ClickBack *)
    unfold handle. split; [now apply flowInvariant_goBack | exact Hpend].
  - (* ClickOpenLog *)
    unfold handle. destruct (showLog (app w)); [|now split].
    split; [now apply flowInvariant_openLog | exact Hpend].
  - (* PressTimeout *)
    unfold handle. destruct (pressTimer (app w)); [|now split].
    split; [now apply flowInvariant_pressTimeout | exact Hpend].
  - (* LongPressRandom *)
    unfold handle. split; [now apply flowInvariant_longPressRandom | exact Hpend].
  - (* ClickOpenMaps *)
    unfold handle. destruct (screen (app w)) eqn:Hs; cbn [onRecommend];
      try (split; [cbn [app onApp];
                   first [ now apply flowInvariant_onHome
                         | now apply flowInvariant_onChoose
                         | now apply flowInvariant_onState
                         | now apply flowInvariant_onEnergy
                         | now apply flowInvariant_onLog ]
                  | exact Hpend ]).
    unfold openMapsNearby. destruct geolocation; cbn [negb].
    + split; [cbn; now apply flowInvariant_setGeoStatus|].
      cbn. apply Forall_app. split; [exact Hpend|]. constructor; [|constructor].
      cbn. destruct Hflow as (_ & _ & _ & _ & Hans & _). apply Hans. tauto.
    + split; [cbn; now do 2 apply flowInvariant_setGeoStatus | exact Hpend].
  - (* ClickPlace *)
    unfold handle. destruct (screen (app w)) eqn:Hs; cbn [onRecommend];
      try (split; [cbn [app onApp];
                   first [ now apply flowInvariant_onHome
                         | now apply flowInvariant_onChoose
                         | now apply flowInvariant_onState
                         | now apply flowInvariant_onEnergy
                         | now apply flowInvariant_onLog ]
                  | exact Hpend ]).
    destruct (nth_error (filteredPlaces (app w)) position); [|now split].
    split; [cbn; now apply flowInvariant_place | exact Hpend].
  - (* GeoSuccess *)
    unfold handle. apply Hanswer. intros req w' [Hf Hp]. unfold geoSuccess.
    split; [cbn; now apply flowInvariant_saveEnergy, flowInvariant_setGeoStatus | exact Hp].
  - (* GeoError *)
    unfold handle. apply Hanswer. intros req w' [Hf Hp]. unfold geoError.
    split; [cbn; now apply flowInvariant_setGeoStatus | exact Hp].
Qed.

Lemma reachable_invariant (w : World) : reachable w -> worldInvariant w.
Proof.
  induction 1 as [entries|ev w _ IH].
  - split; [apply flowInvariant_initial | constructor].
  - now apply worldInvariant_handle.
Qed.

Lemma reachable_handleAll (evs : list Event) (w : World) :
  reachable w -> reachable (handleAll evs w).
Proof.
  revert w. induction evs as [|ev evs IH]; intros w H; [exact H|].
  cbn. apply IH. now constructor.
Qed.

End Invariant.

Lemma answered_tags (a : App) :
  answered a ->
  exists t f s,
    temp a = Some t /\ form a = Some f /\ speed a = Some s /\
    tags (derived a) =
      [temp_label t; form_label f; style_label (style (derived a)); speed_label s].
Proof.
  intros (Ht & Hf & Hs). unfold derived, computeTags.
  destruct (temp a) as [t|]; [|contradiction].
  destruct (form a) as [f|]; [|contradiction].
  destruct (speed a) as [s|]; [|contradiction].
  exists t, f, s. repeat split.
Qed.

Section ReachableProperties.
Context {host : Host}.

(** X4.  In every reachable world the step of the Choose screen is 0, 1
    or 2, and on the Choose screen a step is shown only once the earlier
    questions are answered: the temperature from step 1 on, the form at
    step 2. *)
Theorem reachable_choose_steps :
  forall w : World,
    reachable w ->
    (0 <= chooseStep (app w) <= 2)%Z /\
    (screen (app w) = Screen.choose ->
       ((1 <= chooseStep (app w))%Z -> temp (app w) <> None) /\
       ((2 <= chooseStep (app w))%Z -> form (app w) <> None)).
Proof.
  intros w Hw. destruct (reachable_invariant w Hw) as [(Hstep & _ & _ & Hchoose & _) _].
  split; [exact Hstep | exact Hchoose].
Qed.

(** X5.  In every reachable world on the Result, Recommend or Saved
    screen the three questions are answered, and the tags are exactly
    four: the temperature, form, style and pace labels, in this order.
    The same holds of the render kept by every pending position request,
    and on the Saved screen the log is not empty. *)
Theorem reachable_result_screens :
  forall w : World,
    reachable w ->
    (screen (app w) = Screen.state \/ screen (app w) = Screen.recommend \/
     screen (app w) = Screen.energy ->
       exists t f s,
         temp (app w) = Some t /\ form (app w) = Some f /\ speed (app w) = Some s /\
         tags (derived (app w)) =
           [temp_label t; form_label f; style_label (style (derived (app w)));
            speed_label s]) /\
    (forall req, In req (geoPending w) ->
       exists t f s,
         temp (render req) = Some t /\ form (render req) = Some f /\
         speed (render req) = Some s /\
         tags (derived (render req)) =
           [temp_label t; form_label f; style_label (style (derived (render req)));
            speed_label s]) /\
    (screen (app w) = Screen.energy -> log (app w) <> []).
Proof.
  intros w Hw.
  destruct (reachable_invariant w Hw) as [(_ & _ & _ & _ & Hans & Hlog) Hpend].
  split; [intros Hs; now apply answered_tags, Hans|].
  split; [|exact Hlog].
  intros req Hreq. apply answered_tags.
  rewrite Forall_forall in Hpend. now apply Hpend.
Qed.

(** X6.  In every reachable world the pressed flag is set only while
    the long-press timeout of the Home screen is scheduled, and only on
    the Home and Log screens: a flag that is set is always cleared, by
    the release or by the timeout.  (The timeout can outlast the flag:
    see [press_timer_outlasts_flag].) *)
Theorem reachable_press_timer :
  forall w : World,
    reachable w ->
    pressing (app w) = true ->
    pressTimer (app w) = true /\
    (screen (app w) = Screen.home \/ screen (app w) = Screen.log).
Proof.
  intros w Hw Hp. destruct (reachable_invariant w Hw) as [(_ & Hpress & Hscreen & _) _].
  split; [now apply Hpress | now apply Hscreen].
Qed.

End ReachableProperties.

Lemma exampleRecommend_reachable : reachable (host := exampleHost) exampleRecommend.
Proof. unfold exampleRecommend. apply reachable_handleAll. constructor. Qed.

Lemma examplePending_reachable : reachable (host := exampleHost) examplePending.
Proof. unfold examplePending. constructor. apply exampleRecommend_reachable. Qed.

Lemma reachable_choose_steps_witness :
  reachable (host := exampleHost) exampleRecommend /\
  (0 <= chooseStep (app exampleRecommend) <= 2)%Z.
Proof.
  split; [exact exampleRecommend_reachable|].
  exact (proj1 (reachable_choose_steps (host := exampleHost) exampleRecommend
                  exampleRecommend_reachable)).
Defined.

Lemma reachable_result_screens_witness :
  reachable (host := exampleHost) examplePending /\
  screen (app examplePending) = Screen.recommend /\
  List.length (tags (derived (app examplePending))) = 4 /\
  List.length (geoPending examplePending) = 1.
Proof.
  split; [exact examplePending_reachable|].
  split; [reflexivity|].
  destruct (reachable_result_screens (host := exampleHost) examplePending
              examplePending_reachable) as (Htags & _).
  destruct (Htags (or_intror (or_introl eq_refl))) as (t & f & s & _ & _ & _ & ->).
  split; reflexivity.
Defined.

Lemma reachable_press_timer_witness :
  reachable (host := exampleHost) (handle (host := exampleHost) PressDown (initialWorld [])) /\
  pressing (app (handle (host := exampleHost) PressDown (initialWorld []))) = true /\
  pressTimer (app (handle (host := exampleHost) PressDown (initialWorld []))) = true.
Proof.
  assert (Hr : reachable (host := exampleHost)
                 (handle (host := exampleHost) PressDown (initialWorld []))).
  { constructor. constructor. }
  split; [exact Hr|].
  split; [reflexivity|].
  exact (proj1 (reachable_press_timer (host := exampleHost) _ Hr eq_refl)).
Defined.

(** The long-press callback of the Result button, run while the timeout
    of the Home screen is scheduled, clears the flag and leaves the
    timeout scheduled, on the Result screen. *)
Example press_timer_outlasts_flag :
  let w := handleAll (host := exampleHost) [PressDown; LongPressRandom exampleSource]
             (initialWorld []) in
  pressing (app w) = false /\ pressTimer (app w) = true /\ screen (app w) = Screen.state.
Proof. repeat split. Qed.

(** ** The history log under every event *)

Lemma cons_neq {A : Type} (x : A) (l : list A) : x :: l <> l.
Proof.
  intros H. apply (f_equal (@List.length A)) in H. simpl in H. lia.
Qed.

Lemma mockPlaces_names (p : Place.t) : In p mockPlaces -> Place.name p <> "".
Proof.
  unfold mockPlaces. cbn [In]. intros H.
  repeat (destruct H as [<-|H]; [discriminate|]). contradiction.
Qed.

Lemma placeholderText_not_blank : or_empty placeholderText <> "".
Proof. discriminate. Qed.

Lemma or_empty_id (s : string) : or_empty s = s.
Proof. unfold or_empty. destruct (String.eqb_spec s ""); congruence. Qed.

Section LogFrame.
Context {host : Host}.

Lemma filteredPlaces_In (a : App) (p : Nearby.t) :
  In p (filteredPlaces a) -> In (Nearby.place p) mockPlaces.
Proof.
  intros Hin. unfold filteredPlaces in Hin.
  apply (in_map Nearby.place) in Hin. rewrite filterPlaces_places in Hin.
  apply In_firstn in Hin.
  destruct (nonempty _) in Hin.
  - rewrite candidates_one_pass in Hin. now apply filter_In in Hin.
  - unfold fallback in Hin. now apply filter_In in Hin.
Qed.

Lemma log_goBack (a : App) : log (goBack a) = log a.
Proof. unfold goBack. destruct (screen a); try reflexivity. now destruct (chooseStep a =? 0)%Z. Qed.

Lemma log_onHome (ev : Event) (a : App) : log (onHome ev a) = log a.
Proof. destruct ev; reflexivity. Qed.

Lemma log_onChoose (ev : Event) (a : App) : log (onChoose ev a) = log a.
Proof.
  unfold onChoose, primaryClick, nextChoose.
  destruct (chooseStep a =? 0)%Z; [|destruct (chooseStep a =? 1)%Z;
    [|destruct (chooseStep a =? 2)%Z]]; destruct ev; try reflexivity;
    try destruct (temp a); try destruct (form a); try destruct (speed a);
    cbn [negb nonempty_opt]; try reflexivity;
    now destruct (chooseStep a <? totalChooseSteps - 1)%Z.
Qed.

Lemma log_onState (ev : Event) (a : App) : log (onState ev a) = log a.
Proof. destruct ev; reflexivity. Qed.

Lemma log_onEnergy (ev : Event) (a : App) : log (onEnergy ev a) = log a.
Proof. destruct ev; reflexivity. Qed.

Lemma log_onLog (ev : Event) (a : App) :
  ev <> ClickClear -> log (onLog ev a) = log a.
Proof. destruct ev; try reflexivity. intros H. now contradiction H. Qed.

(** How one event changes the log: not at all, by the clear action, by
    the success of a pending position request, or by the choice of a
    listed place. *)
Lemma handle_log_cases (ev : Event) (w : World) :
  log (app (handle ev w)) = log (app w) \/
  (ev = ClickClear /\ screen (app w) = Screen.log /\ log (app (handle ev w)) = []) \/
  (exists k latitude longitude clk req,
     ev = GeoSuccess k latitude longitude clk /\
     nth_error (geoPending w) k = Some req /\
     log (app (handle ev w)) = newEntry (render req) clk placeholderText :: log (app w)) \/
  (exists position clk p,
     ev = ClickPlace position clk /\ screen (app w) = Screen.recommend /\
     nth_error (filteredPlaces (app w)) position = Some p /\
     log (app (handle ev w)) =
       newEntry (app w) clk (Place.name (Nearby.place p)) :: log (app w)).
Proof.
  assert (Hscreens : forall ev', ev' <> ClickClear ->
            (forall g s, ev' <> ClickOpenMaps g s) -> (forall n c, ev' <> ClickPlace n c) ->
            log (app (match screen (app w) with
                      | Screen.home => onApp (onHome ev') w
                      | Screen.choose => onApp (onChoose ev') w
                      | Screen.state => onApp (onState ev') w
                      | Screen.recommend => onRecommend ev' w
                      | Screen.energy => onApp (onEnergy ev') w
                      | Screen.log => onApp (onLog ev') w
                      end)) = log (app w)).
  { intros ev' Hc Hm Hp. destruct (screen (app w)); cbn [app onApp].
    - apply log_onHome.
    - apply log_onChoose.
    - apply log_onState.
    - destruct ev'; try reflexivity; [now contradiction (Hm geolocation src)
                                      | now contradiction (Hp position clk)].
    - apply log_onEnergy.
    - now apply log_onLog. }
  destruct ev; unfold handle;
    try (left; apply Hscreens; intros; discriminate).
  - (* ClickBack *) left. apply log_goBack.
  - (* ClickOpenLog *) left. now destruct (showLog (app w)).
  - (* PressTimeout *) left. now destruct (pressTimer (app w)).
  - (* LongPressRandom *) left. reflexivity.
  - (* ClickOpenMaps *)
    left. destruct (screen (app w)); cbn [app onApp onRecommend];
      first [apply log_onHome | apply log_onChoose | apply log_onState
            | apply log_onEnergy | reflexivity | idtac].
    unfold openMapsNearby. now destruct geolocation.
  - (* ClickPlace *)
    destruct (screen (app w)) eqn:Hs; cbn [app onApp onRecommend];
      try (left; first [apply log_onHome | apply log_onChoose | apply log_onState
                       | apply log_onEnergy | reflexivity]; fail).
    destruct (nth_error (filteredPlaces (app w)) position) as [p|] eqn:Hp;
      [|left; reflexivity].
    right. right. right. exists position, clk, p.
    repeat split; first [exact Hs | exact Hp | reflexivity].
  - (* GeoSuccess *)
    unfold answer.
    destruct (nth_error (geoPending w) k) as [req|] eqn:Hreq; [|left; reflexivity].
    right. right. left. exists k, latitude, longitude, clk, req.
    repeat split; first [exact Hreq | reflexivity].
  - (* GeoError *)
    left. unfold answer. now destruct (nth_error (geoPending w) k).
  - (* ClickClear *)
    destruct (screen (app w)) eqn:Hs; cbn [app onApp onRecommend];
      try (left; first [apply log_onHome | apply log_onChoose | apply log_onState
                       | apply log_onEnergy | reflexivity]; fail).
    right. left. repeat split; first [exact Hs | reflexivity].
Qed.


Lemma known_description (text : string) :
  text = placeholderText \/ (exists p, In p mockPlaces /\ text = Place.name p) ->
  text <> "" /\ text <> "（未選餐廳）".
Proof.
  intros [->|(p & Hin & ->)]; [split; discriminate|].
  unfold mockPlaces in Hin. cbn [In] in Hin.
  repeat (destruct Hin as [<-|Hin]; [split; discriminate|]). contradiction.
Qed.

Lemma new_entry_description (w : World) (e : LogEntry.t) (ev : Event) :
  log (app (handle ev w)) = e :: log (app w) ->
  exists r clk text,
    e = newEntry r clk text /\
    (text = placeholderText \/ (exists p, In p mockPlaces /\ text = Place.name p)) /\
    (r = app w /\ screen (app w) = Screen.recommend \/
     exists req, In req (geoPending w) /\ r = render req).
Proof.
  intros He. destruct (handle_log_cases ev w) as [H|[H|[H|H]]].
  - rewrite H in He. symmetry in He. now apply cons_neq in He.
  - destruct H as (_ & _ & H). rewrite H in He. discriminate.
  - destruct H as (k & la & lo & clk & req & _ & Hreq & H). rewrite H in He.
    injection He as <-. exists (render req), clk, placeholderText.
    split; [reflexivity|]. split; [now left|].
    right. exists req. split; [eapply nth_error_In; exact Hreq | reflexivity].
  - destruct H as (n & clk & p & _ & Hs & Hp & H). rewrite H in He.
    injection He as <-. exists (app w), clk, (Place.name (Nearby.place p)).
    split; [reflexivity|].
    split.
    + right. exists (Nearby.place p). split; [|reflexivity].
      apply (filteredPlaces_In (app w)). eapply nth_error_In; exact Hp.
    + left. split; [reflexivity | exact Hs].
Qed.

(** X7.  One event leaves the history log as it is, or empties it, or
    puts exactly one new entry in front of it; it empties it only for the
    clear action of the Log screen, and a new entry always has a
    non-empty description and a signature of mode "satisfied".  So over
    any events without the clear action the log only grows at the front:
    no entry is lost, changed or moved. *)
Theorem log_grows_at_front :
  (forall (ev : Event) (w : World),
     log (app (handle ev w)) = log (app w) \/
     (log (app (handle ev w)) = [] /\ ev = ClickClear /\ screen (app w) = Screen.log) \/
     (exists e, log (app (handle ev w)) = e :: log (app w) /\
        LogEntry.choiceText e <> "" /\
        exists s, LogEntry.sig e = Some s /\ Sig.mode s = satisfied)) /\
  (forall (evs : list Event) (w : World),
     (forall ev, In ev evs -> ev <> ClickClear) ->
     exists newer, log (app (handleAll evs w)) = (newer ++ log (app w))%list).
Proof.
  assert (Hone : forall (ev : Event) (w : World),
     log (app (handle ev w)) = log (app w) \/
     (log (app (handle ev w)) = [] /\ ev = ClickClear /\ screen (app w) = Screen.log) \/
     (exists e, log (app (handle ev w)) = e :: log (app w) /\
        LogEntry.choiceText e <> "" /\
        exists s, LogEntry.sig e = Some s /\ Sig.mode s = satisfied)).
  { intros ev w. destruct (handle_log_cases ev w) as [H|[H|[H|H]]].
    - now left.
    - right. left. tauto.
    - right. right. destruct H as (k & la & lo & clk & req & _ & _ & H).
      eexists. split; [exact H|]. split; [discriminate|].
      eexists. split; reflexivity.
    - right. right. destruct H as (n & clk & p & _ & _ & Hp & H).
      eexists. split; [exact H|]. split.
      + cbn [newEntry LogEntry.choiceText]. rewrite or_empty_id.
        apply mockPlaces_names, (filteredPlaces_In (app w)).
        eapply nth_error_In; exact Hp.
      + eexists. split; reflexivity. }
  split; [exact Hone|].
  induction evs as [|ev evs IH]; intros w Hevs.
  - exists []. reflexivity.
  - cbn [handleAll fold_left].
    destruct (IH (handle ev w)) as [newer Hnewer].
    { intros ev' Hin. apply Hevs. now right. }
    unfold handleAll in Hnewer. rewrite Hnewer.
    destruct (Hone ev w) as [H|[(_ & Hclear & _)|(e & H & _)]].
    + exists newer. now rewrite H.
    + exfalso. apply (Hevs ev); [now left | exact Hclear].
    + exists (newer ++ [e])%list. rewrite H, <- app_assoc. reflexivity.
Qed.

(** X8.  In a reachable world, the entry an event puts in front of the
    log carries four tags, so its card on the Log screen shows the first
    three (temperature, form, style) and never the pace; its card title
    is its description, never the "no place chosen" text; and its card
    accent is NaN or within [0, 1]. *)
Theorem new_entry_card :
  forall (w : World) (ev : Event) (e : LogEntry.t),
    reachable w ->
    log (app (handle ev w)) = e :: log (app w) ->
    (exists t f s st,
       LogEntry.tags e = [temp_label t; form_label f; style_label st; speed_label s] /\
       cardTags e = [temp_label t; form_label f; style_label st]) /\
    cardTitle e = LogEntry.choiceText e /\
    cardTitle e <> "（未選餐廳）" /\
    (PrimFloat.is_nan (cardAccent e) = true \/
     (0 <=? cardAccent e)%float = true /\ (cardAccent e <=? 1)%float = true).
Proof.
  intros w ev e Hw He.
  destruct (reachable_invariant w Hw) as [(_ & _ & _ & _ & Hans & _) Hpend].
  destruct (new_entry_description w e ev He) as (r & clk & text & -> & Htext & Hr).
  apply known_description in Htext. destruct Htext as [Hblank Hfallback].
  assert (Hanswered : answered r).
  { destruct Hr as [[-> Hs]|(req & Hin & ->)].
    - apply Hans. tauto.
    - rewrite Forall_forall in Hpend. now apply Hpend. }
  destruct (answered_tags r Hanswered) as (t & f & s & _ & _ & _ & Htags).
  split.
  { exists t, f, s, (style (derived r)). unfold cardTags.
    cbn [newEntry LogEntry.tags]. rewrite Htags. split; reflexivity. }
  assert (Htitle : cardTitle (newEntry r clk text) = text).
  { unfold cardTitle. cbn [newEntry LogEntry.choiceText]. rewrite or_empty_id.
    destruct (String.eqb_spec text ""); [contradiction | reflexivity]. }
  split; [rewrite Htitle; cbn [newEntry LogEntry.choiceText]; now rewrite or_empty_id|].
  split; [now rewrite Htitle|].
  unfold cardAccent. cbn [newEntry LogEntry.sig Sig.warmth].
  destruct (PrimFloat.is_nan (0.35 + richness r * 0.65)%float) eqn:E.
  - left. now rewrite (clamp_nan _ E).
  - right. rewrite (clamp_not_nan _ E).
    destruct (0 <? _)%float eqn:H0; [|split; reflexivity].
    destruct (1 <? _)%float eqn:H1; [split; reflexivity|].
    split; [now apply ltb_leb|].
    apply not_ltb_leb; [reflexivity | exact E | exact H1].
Qed.

End LogFrame.

Lemma log_grows_at_front_witness :
  (forall ev, In ev [ClickOpenMaps true exampleSource; GeoSuccess 0 25 121.5 exampleClock] ->
     ev <> ClickClear) /\
  exists newer,
    log (app exampleWentOut) = (newer ++ log (app exampleRecommend))%list /\
    List.length newer = 1.
Proof.
  assert (Hevs : forall ev,
            In ev [ClickOpenMaps true exampleSource; GeoSuccess 0 25 121.5 exampleClock] ->
            ev <> ClickClear).
  { intros ev [<-|[<-|[]]]; discriminate. }
  split; [exact Hevs|].
  destruct (log_grows_at_front (host := exampleHost)) as [_ Hseq].
  destruct (Hseq _ exampleRecommend Hevs) as [newer Hnewer].
  exists newer. split; [exact Hnewer|].
  apply (f_equal (@List.length LogEntry.t)) in Hnewer.
  rewrite length_app in Hnewer. cbn in Hnewer. lia.
Defined.

Lemma new_entry_card_witness :
  reachable (host := exampleHost) exampleRecommend /\
  cardTags (newEntry (host := exampleHost) (app exampleRecommend) exampleClock "日式烏龍") =
    ["熱食"; "湯的"; "清爽"] /\
  cardTitle (newEntry (host := exampleHost) (app exampleRecommend) exampleClock "日式烏龍") =
    "日式烏龍".
Proof.
  split; [exact exampleRecommend_reachable|].
  destruct (new_entry_card (host := exampleHost) exampleRecommend
              (ClickPlace 0 exampleClock)
              (newEntry (host := exampleHost) (app exampleRecommend) exampleClock "日式烏龍")
              exampleRecommend_reachable eq_refl) as (_ & Htitle & _).
  split; [reflexivity | exact Htitle].
Defined.

(** ** Going back *)

Section Navigation.
Context {host : Host}.

(** X9.  "Back" undoes "next" on the Choose screen at steps 0 and 1 and
    undoes "show nearby" on the Result screen: the world is exactly what
    it was.  "Back" at step 0 leaves the flow: the Home screen, with all
    answers reset.  After a place was chosen "back" returns to the
    Recommend screen with the same answers and the new entry kept.  On
    the Home and Result screens, where the back button is only styled
    away, "back" is [goHome]: the Home screen, with all answers reset,
    the press flag and the timeout cleared, and the log kept; so a
    finished round of answers is lost by it. *)
Theorem back_undoes_next :
  forall w : World,
    (screen (app w) = Screen.choose -> chooseStep (app w) = 0%Z -> temp (app w) <> None ->
       handle ClickBack (handle ClickNext w) = w) /\
    (screen (app w) = Screen.choose -> chooseStep (app w) = 1%Z -> form (app w) <> None ->
       handle ClickBack (handle ClickNext w) = w) /\
    (screen (app w) = Screen.state ->
       handle ClickBack (handle ClickNearby w) = w) /\
    (screen (app w) = Screen.choose -> chooseStep (app w) = 0%Z ->
       let a' := app (handle ClickBack w) in
       screen a' = Screen.home /\ temp a' = None /\ form a' = None /\ speed a' = None /\
       richness a' = 0.5%float /\ log a' = log (app w)) /\
    (forall position clk p,
       screen (app w) = Screen.recommend ->
       nth_error (filteredPlaces (app w)) position = Some p ->
       let a' := app (handle ClickBack (handle (ClickPlace position clk) w)) in
       screen a' = Screen.recommend /\
       temp a' = temp (app w) /\ form a' = form (app w) /\ speed a' = speed (app w) /\
       richness a' = richness (app w) /\
       log a' = newEntry (app w) clk (Place.name (Nearby.place p)) :: log (app w)) /\
    (screen (app w) = Screen.home \/ screen (app w) = Screen.state ->
       handle ClickBack w = onApp goHome w /\
       let a' := app (handle ClickBack w) in
       screen a' = Screen.home /\ chooseStep a' = 0%Z /\
       temp a' = None /\ form a' = None /\ speed a' = None /\
       richness a' = 0.5%float /\ pressing a' = false /\ pressTimer a' = false /\
       log a' = log (app w)).
Proof.
  intros [a pend urls]. destruct a as [lg sc st tm fm ri sp pt pr gs].
  cbn [app screen chooseStep temp form speed richness log].
  split; [intros -> -> Ht; destruct tm; [reflexivity | contradiction]|].
  split; [intros -> -> Hf; destruct fm; [reflexivity | contradiction]|].
  split; [intros ->; reflexivity|].
  split; [intros -> ->; cbv zeta; repeat split|].
  split.
  { intros position clk p -> Hp. cbv zeta.
    match goal with |- context [handle (ClickPlace position clk) ?W] =>
      assert (Hplace : handle (ClickPlace position clk) W =
                onApp (fun a => setScreen Screen.energy
                         (saveEnergy (app W) clk (Place.name (Nearby.place p)) a)) W)
        by (unfold handle; cbn [app screen onRecommend]; now rewrite Hp)
    end.
    rewrite Hplace. repeat split; reflexivity. }
  intros [-> | ->]; cbv zeta; repeat split.
Qed.

End Navigation.

Lemma back_undoes_next_witness :
  screen (app exampleRecommend) = Screen.recommend /\
  screen (app (handle (host := exampleHost) ClickBack exampleRecommend)) = Screen.state /\
  handle (host := exampleHost) ClickBack
    (handle (host := exampleHost) ClickNearby
       (handle (host := exampleHost) ClickBack exampleRecommend)) =
  handle (host := exampleHost) ClickBack exampleRecommend.
Proof.
  split; [reflexivity|]. split; [reflexivity|].
  destruct (back_undoes_next (host := exampleHost)
              (handle (host := exampleHost) ClickBack exampleRecommend))
    as (_ & _ & Hstate & _).
  apply Hstate. reflexivity.
Defined.

(** ** The long press of the Home screen *)

Section LongPress.
Context {host : Host}.

(** X10.  On the Home screen a press that is released before the
    timeout leaves the world exactly as it was, and the timeout that
    would have followed does nothing; a press that lasts switches to the
    Result screen with the three questions answered, the press flag and
    the timer cleared, and the log untouched. *)
Theorem home_long_press :
  forall (w : World) (src : RandomSource),
    screen (app w) = Screen.home ->
    pressing (app w) = false -> pressTimer (app w) = false ->
    handle PressUp (handle PressDown w) = w /\
    handle (PressTimeout src) (handle PressUp (handle PressDown w)) = w /\
    (let w' := handle (PressTimeout src) (handle PressDown w) in
     screen (app w') = Screen.state /\ answered (app w') /\
     pressing (app w') = false /\ pressTimer (app w') = false /\
     log (app w') = log (app w) /\
     handle (PressTimeout src) w' = w').
Proof.
  intros [a pend urls] src. destruct a as [lg sc st tm fm ri sp pt pr gs].
  cbn [app screen pressing pressTimer]. intros -> -> ->.
  split; [reflexivity|]. split; [reflexivity|].
  cbv zeta. cbn. unfold answered. cbn. repeat split; discriminate.
Qed.

End LongPress.

Lemma home_long_press_witness :
  screen (app (initialWorld [])) = Screen.home /\
  screen (app (handle (host := exampleHost) (PressTimeout exampleSource)
                 (handle (host := exampleHost) PressDown (initialWorld [])))) = Screen.state /\
  tags (derived (app (handle (host := exampleHost) (PressTimeout exampleSource)
                 (handle (host := exampleHost) PressDown (initialWorld []))))) =
    ["冷食"; "湯的"; "重口"; "快點"].
Proof.
  destruct (home_long_press (host := exampleHost) (initialWorld []) exampleSource
              eq_refl eq_refl eq_refl) as (_ & _ & Hscreen & _).
  split; [reflexivity|]. split; [exact Hscreen | reflexivity].
Defined.

(** ** Map requests and opened addresses *)

Lemma remove_nth_length {A : Type} (k : nat) (l : list A) (x : A) :
  nth_error l k = Some x -> S (List.length (remove_nth k l)) = List.length l.
Proof.
  revert k. induction l as [|y l IH]; intros k H; destruct k; simpl in *;
    try discriminate; [reflexivity | now rewrite (IH k H)].
Qed.

Lemma nth_error_remove_other {A : Type} (k : nat) (l extra : list A) (x : A) :
  nth_error l k = Some x -> nth_error (l ++ extra) k = Some x.
Proof.
  intros H. rewrite nth_error_app1; [exact H|]. apply nth_error_Some. congruence.
Qed.

Section MapBookkeeping.
Context {host : Host}.

Lemma world_onApp (f : App -> App) (w : World) :
  geoPending (onApp f w) = geoPending w /\ opened (onApp f w) = opened w.
Proof. split; reflexivity. Qed.

(** What one event does to the pending requests and the opened
    addresses. *)
Lemma handle_map_cases (ev : Event) (w : World) :
  (geoPending (handle ev w) = geoPending w /\ opened (handle ev w) = opened w /\
   (forall src, ev <> ClickOpenMaps true src \/ screen (app w) <> Screen.recommend) /\
   (forall src, ev <> ClickOpenMaps false src \/ screen (app w) <> Screen.recommend)) \/
  (exists src q, ev = ClickOpenMaps true src /\ screen (app w) = Screen.recommend /\
     geoPending (handle ev w) = (geoPending w ++ [{| render := app w; query := q |}])%list /\
     opened (handle ev w) = opened w) \/
  (exists src q, ev = ClickOpenMaps false src /\ screen (app w) = Screen.recommend /\
     geoPending (handle ev w) = geoPending w /\
     opened (handle ev w) = plainSearchUrl q :: opened w) \/
  (exists k req url, isAnswer ev = true /\ nth_error (geoPending w) k = Some req /\
     geoPending (handle ev w) = remove_nth k (geoPending w) /\
     opened (handle ev w) = url :: opened w).
Proof.
  assert (Hplain : forall w', geoPending w' = geoPending w -> opened w' = opened w ->
            (forall g src, ev <> ClickOpenMaps g src) \/ screen (app w) <> Screen.recommend ->
            geoPending w' = geoPending w /\ opened w' = opened w /\
            (forall src, ev <> ClickOpenMaps true src \/ screen (app w) <> Screen.recommend) /\
            (forall src, ev <> ClickOpenMaps false src \/ screen (app w) <> Screen.recommend)).
  { intros w' Hp Ho Hev. repeat split; try assumption;
      intros src; destruct Hev as [Hev|Hev]; auto. }
  destruct ev;
    try (left; unfold handle;
         match goal with
         | |- context [match screen (app w) with _ => _ end] =>
             destruct (screen (app w)); cbn [onRecommend]
         | _ => idtac
         end;
         first [ apply Hplain; [reflexivity | reflexivity | left; intros; discriminate] ];
         fail).
  - (* ClickOpenLog *)
    left. unfold handle. destruct (showLog (app w));
      apply Hplain; try reflexivity; left; intros; discriminate.
  - (* PressTimeout *)
    left. unfold handle. destruct (pressTimer (app w));
      apply Hplain; try reflexivity; left; intros; discriminate.
  - (* ClickOpenMaps *)
    unfold handle. destruct (screen (app w)) eqn:Hs; cbn [onRecommend];
      try (left; apply Hplain; [reflexivity | reflexivity | right; discriminate]).
    unfold openMapsNearby. destruct geolocation; cbn [negb].
    + right. left. eexists. eexists. repeat split.
    + right. right. left. eexists. eexists. repeat split.
  - (* ClickPlace *)
    left. unfold handle. destruct (screen (app w)); cbn [onRecommend];
      try (apply Hplain; [reflexivity | reflexivity | left; intros; discriminate]).
    destruct (nth_error (filteredPlaces (app w)) position);
      apply Hplain; try reflexivity; left; intros; discriminate.
  - (* GeoSuccess *)
    unfold handle, answer.
    destruct (nth_error (geoPending w) k) as [req|] eqn:Hreq.
    + right. right. right. exists k, req. eexists. repeat split. exact Hreq.
    + left. apply Hplain; try reflexivity. left; intros; discriminate.
  - (* GeoError *)
    unfold handle, answer.
    destruct (nth_error (geoPending w) k) as [req|] eqn:Hreq.
    + right. right. right. exists k, req. eexists. repeat split. exact Hreq.
    + left. apply Hplain; try reflexivity. left; intros; discriminate.
Qed.

(** X12.  Bookkeeping of the map action.  The number of pending position
    requests plus the number of opened addresses grows by exactly one
    when the map action is used on the Recommend screen and is unchanged
    by every other event: a request that is answered is taken off the
    pending list and opens exactly one address, and an answer to a
    request that is not pending changes nothing. *)
Theorem map_requests_balance :
  forall (ev : Event) (w : World),
    (List.length (geoPending (handle ev w)) + List.length (opened (handle ev w)) =
     List.length (geoPending w) + List.length (opened w)
     + (if match ev with ClickOpenMaps _ _ => true | _ => false end
        then match screen (app w) with Screen.recommend => 1 | _ => 0 end
        else 0))%nat /\
    (isAnswer ev = true ->
       (exists k, (k < List.length (geoPending w))%nat /\
          S (List.length (geoPending (handle ev w))) = List.length (geoPending w) /\
          List.length (opened (handle ev w)) = S (List.length (opened w))) \/
       handle ev w = w) /\
    (exists newer, opened (handle ev w) = (newer ++ opened w)%list /\
       (List.length newer <= 1)%nat).
Proof.
  intros ev w.
  destruct (handle_map_cases ev w) as
    [(Hp & Ho & Ht & Hf)|[(src & q & -> & Hs & Hp & Ho)|[(src & q & -> & Hs & Hp & Ho)
    |(k & req & url & Hans & Hreq & Hp & Ho)]]].
  - split.
    { rewrite Hp, Ho. destruct ev; try lia.
      destruct (screen (app w)) eqn:Hs; try lia.
      destruct geolocation.
      - destruct (Ht src) as [H|H]; [now contradiction H | congruence].
      - destruct (Hf src) as [H|H]; [now contradiction H | congruence]. }
    split.
    { intros Hans. right. destruct ev; try discriminate; unfold handle, answer in *.
      - destruct (nth_error (geoPending w) k) as [req|] eqn:Hreq; [|reflexivity].
        exfalso. cbn in Ho. apply (f_equal (@List.length string)) in Ho. cbn in Ho. lia.
      - destruct (nth_error (geoPending w) k) as [req|] eqn:Hreq; [|reflexivity].
        exfalso. cbn in Ho. apply (f_equal (@List.length string)) in Ho. cbn in Ho. lia. }
    exists []. rewrite Ho. split; [reflexivity | cbn; lia].
  - split; [rewrite Hp, Ho, Hs, length_app; cbn; lia|].
    split; [discriminate|].
    exists []. rewrite Ho. split; [reflexivity | cbn; lia].
  - split; [rewrite Hp, Ho, Hs; cbn; lia|].
    split; [discriminate|].
    eexists [_]. rewrite Ho. split; [reflexivity | cbn; lia].
  - pose proof (remove_nth_length k (geoPending w) req Hreq) as Hlen.
    split.
    { rewrite Hp, Ho. cbn [List.length]. destruct ev; try discriminate; lia. }
    split.
    { intros _. left. exists k. split; [apply nth_error_Some; congruence|].
      rewrite Hp, Ho. split; [exact Hlen | reflexivity]. }
    eexists [_]. rewrite Ho. split; [reflexivity | cbn; lia].
Qed.

(** Events that do not answer a request leave the pending requests where
    they are; a new one goes to the end. *)
Lemma pending_kept (ev : Event) (w : World) (k : nat) (req : GeoRequest) :
  isAnswer ev = false -> nth_error (geoPending w) k = Some req ->
  nth_error (geoPending (handle ev w)) k = Some req.
Proof.
  intros Hev Hreq.
  destruct (handle_map_cases ev w) as
    [(Hp & _)|[(src & q & _ & _ & Hp & _)|[(src & q & _ & _ & Hp & _)
    |(k' & req' & url & Hans & _)]]].
  - now rewrite Hp.
  - rewrite Hp. now apply nth_error_remove_other.
  - now rewrite Hp.
  - congruence.
Qed.

(** X13.  A position request keeps the answers of the render in which
    the map action was used.  Whatever events happen before the request
    is answered (other than answers to requests), its success puts in
    front of the log an entry with the placeholder description and the
    tags of that earlier render, not those of the current state. *)
Theorem pending_request_keeps_render :
  forall (evs : list Event) (w : World) (k : nat) (req : GeoRequest)
         (latitude longitude : float) (clk : Clock),
    nth_error (geoPending w) k = Some req ->
    forallb (fun ev => negb (isAnswer ev)) evs = true ->
    let w' := handleAll evs w in
    let w'' := handle (GeoSuccess k latitude longitude clk) w' in
    log (app w'') = newEntry (render req) clk placeholderText :: log (app w') /\
    (exists e, hd_error (log (app w'')) = Some e /\
       LogEntry.tags e = tags (derived (render req)) /\
       LogEntry.choiceText e = placeholderText) /\
    screen (app w'') = screen (app w').
Proof.
  induction evs as [|ev evs IH]; intros w k req latitude longitude clk Hreq Hevs.
  - cbv zeta. cbn [handleAll fold_left]. unfold handle, answer. rewrite Hreq.
    split; [reflexivity|]. split; [|reflexivity].
    eexists. split; [reflexivity|]. split; reflexivity.
  - cbn [forallb] in Hevs. apply andb_true_iff in Hevs. destruct Hevs as [Hev Hevs].
    apply negb_true_iff in Hev.
    cbn [handleAll fold_left].
    apply (IH (handle ev w) k req latitude longitude clk); [|exact Hevs].
    now apply pending_kept.
Qed.

End MapBookkeeping.

Lemma map_requests_balance_witness :
  isAnswer (GeoError 0 1) = true /\
  List.length (geoPending examplePending) = 1 /\
  List.length (opened examplePending) = 0 /\
  List.length (geoPending (handle (host := exampleHost) (GeoError 0 1) examplePending))
  + List.length (opened (handle (host := exampleHost) (GeoError 0 1) examplePending)) = 1.
Proof.
  split; [reflexivity|]. split; [reflexivity|]. split; [reflexivity|].
  exact (proj1 (map_requests_balance (host := exampleHost) (GeoError 0 1) examplePending)).
Defined.

Lemma pending_request_keeps_render_witness :
  nth_error (geoPending examplePending) 0 =
    Some {| render := app exampleRecommend; query := "粥 烏龍麵" |} /\
  forallb (fun ev => negb (isAnswer ev)) [ClickBack; LongPressRandom exampleSource] = true /\
  tags (derived (app (handleAll (host := exampleHost)
                        [ClickBack; LongPressRandom exampleSource] examplePending))) =
    ["冷食"; "湯的"; "重口"; "快點"] /\
  map LogEntry.tags
    (log (app (handle (host := exampleHost) (GeoSuccess 0 25 121.5 exampleClock)
                 (handleAll (host := exampleHost)
                    [ClickBack; LongPressRandom exampleSource] examplePending)))) =
    [["熱食"; "湯的"; "清爽"; "快點"]].
Proof.
  split; [reflexivity|]. split; [reflexivity|]. split; [reflexivity|].
  destruct (pending_request_keeps_render (host := exampleHost)
              [ClickBack; LongPressRandom exampleSource] examplePending 0
              {| render := app exampleRecommend; query := "粥 烏龍麵" |}
              25 121.5 exampleClock eq_refl eq_refl) as (Hlog & _).
  rewrite Hlog. reflexivity.
Defined.

(** ** Writing the log and reading it back *)

Section StorageRoundTrip.
Context {host : Host}.

(** X14.  Writing the log and starting again.  On a store that accepts
    reads and writes, whatever it held before, once the effect has run
    for a log the text of that log is under the key of the application,
    and a start on the store the effect leaves begins on exactly that
    log.  This needs two things of the host: [JSON.stringify] of the log
    is not the empty text (which the initialiser takes for nothing
    stored), and [JSON.parse] gives the log back from that text.  When
    the store refuses the write the effect leaves the store as it was. *)
Theorem persisted_log_is_read_back :
  forall (ls : LocalStorage) (entries : list LogEntry.t),
    (writable ls = true -> readable ls = true ->
     JSON_stringify entries <> "" ->
     JSON_parse (JSON_stringify entries) = Some (Parsed.array entries) ->
     exists ls',
       useLocalStorageLog_effect ls entries = Ok ls' /\
       items ls' LS_KEY = Some (JSON_stringify entries) /\
       useLocalStorageLog_init ls' = Ok (Parsed.array entries) /\
       mount ls' = started (initialApp entries)) /\
    (writable ls = false -> useLocalStorageLog_effect ls entries = Ok ls).
Proof.
  intros ls entries. split.
  - intros Hw Hr Hne Hparse.
    set (ls' := {| items := fun k => if String.eqb k LS_KEY
                                     then Some (JSON_stringify entries) else items ls k;
                   readable := readable ls; writable := writable ls |}).
    exists ls'.
    split.
    { unfold useLocalStorageLog_effect, setItem. subst ls'.
      destruct (writable ls); [reflexivity | discriminate]. }
    split; [reflexivity|].
    assert (Hinit : useLocalStorageLog_init ls' = Ok (Parsed.array entries)).
    { unfold useLocalStorageLog_init, getItem. subst ls'. cbn [items readable]. rewrite Hr.
      cbn [and_then]. rewrite String.eqb_refl.
      destruct (String.eqb_spec (JSON_stringify entries) ""); [contradiction|].
      now rewrite Hparse. }
    split; [exact Hinit|]. unfold mount. now rewrite Hinit.
  - intros Hw. unfold useLocalStorageLog_effect, setItem. now rewrite Hw.
Qed.

(** X20.  How a start ends, by what is stored.  The first render throws
    exactly when the store can be read and holds, under the key, a text
    that is not empty and parses to [null]; the component runs on a
    value that is not an array of entries exactly when that text parses
    to another value that is no array of entries; in every other case it
    starts on the Home screen with nothing answered, on the stored
    entries when the text parses to an array of them and on the empty
    log otherwise. *)
Theorem startup_outcomes :
  forall ls : LocalStorage,
    (mount ls = renderThrows <->
     exists raw, readable ls = true /\ items ls LS_KEY = Some raw /\ raw <> "" /\
                 JSON_parse raw = Some Parsed.null) /\
    (mount ls = illTyped <->
     exists raw, readable ls = true /\ items ls LS_KEY = Some raw /\ raw <> "" /\
                 JSON_parse raw = Some Parsed.other) /\
    (forall a, mount ls = started a <->
     exists entries, a = initialApp entries /\
       ((exists raw, readable ls = true /\ items ls LS_KEY = Some raw /\ raw <> "" /\
                     JSON_parse raw = Some (Parsed.array entries)) \/
        (entries = [] /\
         (readable ls = false \/ items ls LS_KEY = None \/ items ls LS_KEY = Some "" \/
          exists raw, items ls LS_KEY = Some raw /\ JSON_parse raw = None)))).
Proof.
  intros ls. unfold mount, useLocalStorageLog_init, getItem.
  destruct (readable ls) eqn:Hr; cbn [and_then try_catch].
  2:{ split; [|split].
      - split; [discriminate | intros (raw & H & _); discriminate].
      - split; [discriminate | intros (raw & H & _); discriminate].
      - intros a. split.
        + intros [= <-]. exists []. split; [reflexivity|]. right. split; [reflexivity|].
          now left.
        + intros (entries & -> & [(raw & H & _)|(-> & _)]); [discriminate | reflexivity]. }
  destruct (items ls LS_KEY) as [raw|] eqn:Hraw.
  2:{ split; [|split].
      - split; [discriminate | intros (raw & _ & H & _); discriminate].
      - split; [discriminate | intros (raw & _ & H & _); discriminate].
      - intros a. split.
        + intros [= <-]. exists []. split; [reflexivity|]. right. split; [reflexivity|].
          right. now left.
        + intros (entries & -> & [(raw & _ & H & _)|(-> & _)]); [discriminate | reflexivity]. }
  destruct (String.eqb_spec raw "") as [->|Hne].
  { split; [|split].
    - split; [discriminate | intros (raw & _ & [= <-] & H & _); now contradiction H].
    - split; [discriminate | intros (raw & _ & [= <-] & H & _); now contradiction H].
    - intros a. split.
      + intros [= <-]. exists []. split; [reflexivity|]. right. split; [reflexivity|].
        right. right. now left.
      + intros (entries & -> & [(raw & _ & [= <-] & H & _)|(-> & _)]);
          [now contradiction H | reflexivity]. }
  destruct (JSON_parse raw) as [[entries| |]|] eqn:Hparse; cbn [try_catch].
  - split; [|split].
    + split; [discriminate | intros (raw' & _ & [= <-] & _ & H); congruence].
    + split; [discriminate | intros (raw' & _ & [= <-] & _ & H); congruence].
    + intros a. split.
      * intros [= <-]. exists entries. split; [reflexivity|]. left. now exists raw.
      * intros (entries' & -> & [(raw' & _ & [= <-] & _ & H)|(-> & [H|[H|[H|(raw' & H & H')]]])]);
          try discriminate; congruence.
  - split; [|split].
    + split; [intros _; now exists raw | reflexivity].
    + split; [discriminate | intros (raw' & _ & [= <-] & _ & H); congruence].
    + intros a. split; [discriminate|].
      intros (entries' & -> & [(raw' & _ & [= <-] & _ & H)|(-> & [H|[H|[H|(raw' & H & H')]]])]);
        try discriminate; congruence.
  - split; [|split].
    + split; [discriminate | intros (raw' & _ & [= <-] & _ & H); congruence].
    + split; [intros _; now exists raw | reflexivity].
    + intros a. split; [discriminate|].
      intros (entries' & -> & [(raw' & _ & [= <-] & _ & H)|(-> & [H|[H|[H|(raw' & H & H')]]])]);
        try discriminate; congruence.
  - split; [|split].
    + split; [discriminate | intros (raw' & _ & [= <-] & _ & H); congruence].
    + split; [discriminate | intros (raw' & _ & [= <-] & _ & H); congruence].
    + intros a. split.
      * intros [= <-]. exists []. split; [reflexivity|]. right. split; [reflexivity|].
        right. right. right. now exists raw.
      * intros (entries' & -> & [(raw' & _ & [= <-] & _ & H)|(-> & _)]);
          [congruence | reflexivity].
Qed.

End StorageRoundTrip.

Lemma persisted_log_is_read_back_witness :
  writable emptyStorage = true /\ readable emptyStorage = true /\
  List.length (log (app exampleWentOut)) = 1 /\
  mount (host := echoHost) emptyStorage = started (initialApp []) /\
  exists ls',
    useLocalStorageLog_effect (host := echoHost) emptyStorage (log (app exampleWentOut)) =
      Ok ls' /\
    mount (host := echoHost) ls' = started (initialApp (log (app exampleWentOut))).
Proof.
  split; [reflexivity|]. split; [reflexivity|]. split; [reflexivity|]. split; [reflexivity|].
  destruct (persisted_log_is_read_back (host := echoHost) emptyStorage
              (log (app exampleWentOut))) as [Hok _].
  destruct (Hok eq_refl eq_refl) as (ls' & Heff & _ & _ & Hmount);
    [discriminate | reflexivity |].
  exists ls'. split; [exact Heff | exact Hmount].
Defined.

(** A stored [null] parses, so nothing is caught: the initialiser returns
    it and the first render throws. *)
Example stored_null_breaks_first_render :
  JSON_parse (Host := echoHost) "null" = Some Parsed.null /\
  useLocalStorageLog_init (host := echoHost) nullStorage = Ok Parsed.null /\
  mount (host := echoHost) nullStorage = renderThrows.
Proof. repeat split. Qed.

(** ** The long press of a button *)

Lemma button_run_app (props : PrimaryButton.Props) (xs ys : list PrimaryButton.Input)
  (r : PrimaryButton.Refs) :
  PrimaryButton.run props (xs ++ ys) r =
  (fst (PrimaryButton.run props ys (fst (PrimaryButton.run props xs r))),
   (snd (PrimaryButton.run props xs r)
      ++ snd (PrimaryButton.run props ys (fst (PrimaryButton.run props xs r))))%list).
Proof.
  revert r. induction xs as [|x xs IH]; intros r; cbn [List.app PrimaryButton.run].
  - cbn [fst snd List.app]. now destruct (PrimaryButton.run props ys r).
  - destruct (PrimaryButton.step props x r) as [r1 c1]. rewrite IH.
    destruct (PrimaryButton.run props xs r1) as [r2 c2]. cbn [fst snd].
    now rewrite app_assoc.
Qed.

(** After a long press has fired, and until the next press, nothing is
    called. *)
Lemma button_quiet (props : PrimaryButton.Props) (inputs : list PrimaryButton.Input) :
  PrimaryButton.hasOnLongPress props = true ->
  (forall i, In i inputs -> i <> PrimaryButton.Down) ->
  forall r, PrimaryButton.tRef r = false -> PrimaryButton.longPressedRef r = true ->
    snd (PrimaryButton.run props inputs r) = [] /\
    PrimaryButton.longPressedRef (fst (PrimaryButton.run props inputs r)) = true /\
    PrimaryButton.tRef (fst (PrimaryButton.run props inputs r)) = false.
Proof.
  intros Hlp. induction inputs as [|i inputs IH]; intros Hin r Ht Hl; [now repeat split|].
  cbn [PrimaryButton.run].
  assert (Hstep : PrimaryButton.step props i r = (r, [])).
  { destruct i; cbn [PrimaryButton.step].
    - now contradiction (Hin PrimaryButton.Down (or_introl eq_refl)).
    - unfold PrimaryButton.up, PrimaryButton.clear. destruct r; cbn in *. now subst.
    - unfold PrimaryButton.timeout. now rewrite Ht.
    - unfold PrimaryButton.click. rewrite Hlp, Hl.
      now destruct (PrimaryButton.disabled props). }
  rewrite Hstep.
  destruct (IH (fun j Hj => Hin j (or_intror Hj)) r Ht Hl) as (Hc & Hl' & Ht').
  destruct (PrimaryButton.run props inputs r) as [r2 c2]. cbn [fst snd] in *.
  now subst.
Qed.

(** X15.  The long press of [PrimaryButton].  A press held until the
    timeout calls [onLongPress] once, and then nothing is called, no
    click reaches [onClick], until the button is pressed again; a press
    released before the timeout calls nothing, the timeout that would
    have followed included, and the click after it calls [onClick]
    exactly when the button is not disabled and has one. *)
Theorem long_press_swallows_click :
  forall (props : PrimaryButton.Props) (r : PrimaryButton.Refs)
         (inputs : list PrimaryButton.Input),
    (PrimaryButton.hasOnLongPress props = true ->
     (forall i, In i inputs -> i <> PrimaryButton.Down) ->
     snd (PrimaryButton.run props
            (PrimaryButton.Down :: PrimaryButton.Timeout :: inputs) r) =
       [PrimaryButton.CallOnLongPress]) /\
    snd (PrimaryButton.run props
           [PrimaryButton.Down; PrimaryButton.Up; PrimaryButton.Timeout;
            PrimaryButton.Click] r) =
      (if PrimaryButton.disabled props then []
       else if PrimaryButton.hasOnClick props then [PrimaryButton.CallOnClick] else []) /\
    (PrimaryButton.disabled props = true ->
     ~ In PrimaryButton.CallOnClick (snd (PrimaryButton.run props inputs r))).
Proof.
  intros props r inputs. split; [|split].
  - intros Hlp Hin.
    change (PrimaryButton.Down :: PrimaryButton.Timeout :: inputs)
      with ([PrimaryButton.Down; PrimaryButton.Timeout] ++ inputs)%list.
    rewrite button_run_app. cbn [snd].
    assert (Hfirst : PrimaryButton.run props [PrimaryButton.Down; PrimaryButton.Timeout] r =
              ({| PrimaryButton.tRef := false; PrimaryButton.longPressedRef := true |},
               [PrimaryButton.CallOnLongPress])).
    { cbn. unfold PrimaryButton.down. rewrite Hlp. reflexivity. }
    rewrite Hfirst. cbn [fst snd].
    destruct (button_quiet props inputs Hlp Hin
                {| PrimaryButton.tRef := false; PrimaryButton.longPressedRef := true |}
                eq_refl eq_refl) as (-> & _).
    reflexivity.
  - destruct props as [dis hasClick hasLong], r as [t l].
    destruct dis, hasClick, hasLong, t, l; reflexivity.
  - intros Hdis. revert r. induction inputs as [|i inputs IH]; intros r; [cbn; tauto|].
    cbn [PrimaryButton.run].
    destruct (PrimaryButton.step props i r) as [r1 c1] eqn:Hstep.
    specialize (IH r1). destruct (PrimaryButton.run props inputs r1) as [r2 c2].
    cbn [snd] in *. rewrite in_app_iff. intros [Hin|Hin]; [|now apply IH].
    destruct i; cbn [PrimaryButton.step] in Hstep.
    + injection Hstep as _ <-. contradiction.
    + injection Hstep as _ <-. contradiction.
    + unfold PrimaryButton.timeout in Hstep.
      destruct (PrimaryButton.tRef r); injection Hstep as _ <-;
        cbn in Hin; intuition discriminate.
    + unfold PrimaryButton.click in Hstep. rewrite Hdis in Hstep.
      injection Hstep as _ <-. contradiction.
Qed.

Lemma long_press_swallows_click_witness :
  snd (PrimaryButton.run
         {| PrimaryButton.disabled := false; PrimaryButton.hasOnClick := true;
            PrimaryButton.hasOnLongPress := true |}
         [PrimaryButton.Down; PrimaryButton.Timeout; PrimaryButton.Up; PrimaryButton.Click;
          PrimaryButton.Click]
         {| PrimaryButton.tRef := false; PrimaryButton.longPressedRef := false |}) =
  [PrimaryButton.CallOnLongPress].
Proof.
  apply (proj1 (long_press_swallows_click _ _
                  [PrimaryButton.Up; PrimaryButton.Click; PrimaryButton.Click]));
    [reflexivity|].
  intros i [<-|[<-|[<-|[]]]]; discriminate.
Defined.

(** ** The transitions of the flow *)

Ltac edge :=
  lazymatch goal with
  | |- _ /\ _ => split; edge
  | |- _ \/ _ => first [left; edge | right; edge]
  | |- exists _, _ => eexists; edge
  | |- _ => first [reflexivity | assumption | discriminate | lia | congruence]
  end.

Section Transitions.
Context {host : Host}.

(** X16.  The screen changes only along these transitions, each by its
    own event.  The two long-press timeouts lead to the Result screen
    from whatever screen they run on: the timeout of the Home screen
    while it is scheduled, and the callback of the long-press button of
    the Result screen.  Apart from them: to the Log screen by the log
    button of the top bar or by "see my log" on the Saved screen, and
    then the log is not empty; from Home to Choose by "start"; from
    Choose to Home by "back" at step 0 and to Result by "next" at step 2
    with the pace set; from Result to Recommend, back to Choose, or Home
    by "back"; from Recommend to Result by "back" and to Saved by
    choosing a place; from Saved to Recommend by "back" and to Home; from
    Log to Home.  Every other event leaves the screen as it is. *)
Theorem screen_transitions :
  forall (w : World) (ev : Event),
    reachable w ->
    let s := screen (app w) in
    let s' := screen (app (handle ev w)) in
    s' = s \/
    (s' = Screen.state /\
       ((exists src, ev = PressTimeout src) /\ pressTimer (app w) = true \/
        (exists src, ev = LongPressRandom src))) \/
    (s' = Screen.log /\ log (app w) <> [] /\
       (ev = ClickOpenLog \/ ev = ClickSeeLog /\ s = Screen.energy)) \/
    (s = Screen.home /\ s' = Screen.choose /\ ev = ClickStart) \/
    (s = Screen.choose /\ s' = Screen.home /\ ev = ClickBack /\ chooseStep (app w) = 0%Z) \/
    (s = Screen.choose /\ s' = Screen.state /\ ev = ClickNext /\
       chooseStep (app w) = 2%Z /\ speed (app w) <> None) \/
    (s = Screen.state /\
       (s' = Screen.recommend /\ ev = ClickNearby \/ s' = Screen.choose /\ ev = ClickRethink \/
        s' = Screen.home /\ ev = ClickBack)) \/
    (s = Screen.recommend /\
       (s' = Screen.state /\ ev = ClickBack \/
        s' = Screen.energy /\ exists position clk, ev = ClickPlace position clk)) \/
    (s = Screen.energy /\
       (s' = Screen.recommend /\ ev = ClickBack \/ s' = Screen.home /\ ev = ClickGoHome)) \/
    (s = Screen.log /\ s' = Screen.home /\
       (ev = ClickBack \/ ev = ClickAgain \/ ev = ClickLogHome)).
Proof.
  intros w ev Hw.
  destruct (reachable_invariant w Hw) as [(Hstep & _ & _ & _ & _ & Hlog) _].
  destruct w as [a pend urls]. destruct a as [lg sc st tm fm ri sp pt pr gs].
  cbn [app screen chooseStep speed log pressTimer] in *. cbv zeta.
  destruct ev; unfold handle; cbn [app screen showBack showLog pressTimer log].
  - (* ClickBack *)
    destruct sc; cbn; try (edge).
    destruct (Z.eqb_spec st 0); cbn; edge.
  - (* ClickOpenLog *)
    destruct lg; cbn; [now left|]. edge.
  - (* ClickStart *) destruct sc; cbn; try (now left); try (edge).
    unfold onChoose; cbn. destruct (st =? 0)%Z; [|destruct (st =? 1)%Z;
      [|destruct (st =? 2)%Z]]; now left.
  - (* PressDown *) destruct sc; cbn; try (now left).
    unfold onChoose; cbn. destruct (st =? 0)%Z; [|destruct (st =? 1)%Z;
      [|destruct (st =? 2)%Z]]; now left.
  - (* PressUp *) destruct sc; cbn; try (now left).
    unfold onChoose; cbn. destruct (st =? 0)%Z; [|destruct (st =? 1)%Z;
      [|destruct (st =? 2)%Z]]; now left.
  - (* PressTimeout *)
    destruct pt; cbn; [|now left]. right. left. edge.
  - (* ClickTemp *) destruct sc; cbn; try (now left).
    unfold onChoose; cbn. destruct (st =? 0)%Z; [|destruct (st =? 1)%Z;
      [|destruct (st =? 2)%Z]]; now left.
  - (* ClickForm *) destruct sc; cbn; try (now left).
    unfold onChoose; cbn. destruct (st =? 0)%Z; [|destruct (st =? 1)%Z;
      [|destruct (st =? 2)%Z]]; now left.
  - (* ChangeRichness *) destruct sc; cbn; try (now left).
    unfold onChoose; cbn. destruct (st =? 0)%Z; [|destruct (st =? 1)%Z;
      [|destruct (st =? 2)%Z]]; now left.
  - (* ClickSpeed *) destruct sc; cbn; try (now left).
    unfold onChoose; cbn. destruct (st =? 0)%Z; [|destruct (st =? 1)%Z;
      [|destruct (st =? 2)%Z]]; now left.
  - (* ClickNext *) destruct sc; cbn; try (now left).
    unfold onChoose, primaryClick, nextChoose; cbn [chooseStep temp form speed screen].
    destruct (Z.eqb_spec st 0); [subst; destruct tm; cbn; now left|].
    destruct (Z.eqb_spec st 1); [subst; destruct fm; cbn; now left|].
    destruct (Z.eqb_spec st 2); [subst|now left].
    destruct sp; cbn; [|now left]. edge.
  - (* ClickNearby *) destruct sc; cbn; try (now left); try (edge).
    unfold onChoose; cbn. destruct (st =? 0)%Z; [|destruct (st =? 1)%Z;
      [|destruct (st =? 2)%Z]]; now left.
  - (* ClickRethink *) destruct sc; cbn; try (now left); try (edge).
    unfold onChoose; cbn. destruct (st =? 0)%Z; [|destruct (st =? 1)%Z;
      [|destruct (st =? 2)%Z]]; now left.
  - (* LongPressRandom *) cbn. right. left. edge.
  - (* ClickOpenMaps *) destruct sc; cbn; try (now left).
    + unfold onChoose; cbn. destruct (st =? 0)%Z; [|destruct (st =? 1)%Z;
        [|destruct (st =? 2)%Z]]; now left.
    + unfold openMapsNearby. destruct geolocation; now left.
  - (* ClickPlace *) destruct sc; cbn [onApp onRecommend app screen]; try (now left).
    + unfold onChoose; cbn. destruct (st =? 0)%Z; [|destruct (st =? 1)%Z;
        [|destruct (st =? 2)%Z]]; now left.
    + match goal with |- context [nth_error ?l position] =>
        destruct (nth_error l position) end; [|now left].
      do 7 right. left. split; [reflexivity|]. right. split; [reflexivity|]. eauto.
  - (* GeoSuccess *) unfold answer. cbn [geoPending].
    destruct (nth_error pend k); now left.
  - (* GeoError *) unfold answer. cbn [geoPending].
    destruct (nth_error pend k); now left.
  - (* ClickSeeLog *) destruct sc; cbn; try (now left).
    + unfold onChoose; cbn. destruct (st =? 0)%Z; [|destruct (st =? 1)%Z;
        [|destruct (st =? 2)%Z]]; now left.
    + right. right. left. split; [reflexivity|]. split; [now apply Hlog|]. right. now split.
  - (* ClickGoHome *) destruct sc; cbn; try (now left); try (edge).
    unfold onChoose; cbn. destruct (st =? 0)%Z; [|destruct (st =? 1)%Z;
      [|destruct (st =? 2)%Z]]; now left.
  - (* ClickClear *) destruct sc; cbn; try (now left).
    unfold onChoose; cbn. destruct (st =? 0)%Z; [|destruct (st =? 1)%Z;
      [|destruct (st =? 2)%Z]]; now left.
  - (* ClickAgain *) destruct sc; cbn; try (now left); try (edge).
    unfold onChoose; cbn. destruct (st =? 0)%Z; [|destruct (st =? 1)%Z;
      [|destruct (st =? 2)%Z]]; now left.
  - (* ClickLogHome *) destruct sc; cbn; try (now left); try (edge).
    unfold onChoose; cbn. destruct (st =? 0)%Z; [|destruct (st =? 1)%Z;
      [|destruct (st =? 2)%Z]]; now left.
Qed.

End Transitions.

Lemma screen_transitions_witness :
  reachable (host := exampleHost) exampleRecommend /\
  screen (app exampleRecommend) = Screen.recommend /\
  screen (app (handle (host := exampleHost) (ClickPlace 0 exampleClock) exampleRecommend)) =
    Screen.energy.
Proof.
  split; [exact exampleRecommend_reachable|]. split; [reflexivity|].
  destruct (screen_transitions (host := exampleHost) exampleRecommend
              (ClickPlace 0 exampleClock) exampleRecommend_reachable) as [H|H];
    reflexivity.
Defined.

(** ** The tags and the answers *)

(** X17.  The tags of [computeTags] are pairwise different and number
    one to four, and the flags [buildMapsQuery] reads from them give the
    answers back: the hot, cold, soup and dry labels are in the tags
    exactly for these answers, and exactly one of the two style labels is,
    the rich one exactly when the style is rich. *)
Theorem tags_encode_answers :
  forall (temp : option Temp) (form : option Form) (richness : float) (speed : option Speed),
    let d := computeTags temp form richness speed in
    NoDup (tags d) /\
    1 <= List.length (tags d) <= 4 /\
    (includes (tags d) "熱食" = true <-> temp = Some hot) /\
    (includes (tags d) "冷食" = true <-> temp = Some cold) /\
    (includes (tags d) "湯的" = true <-> form = Some soup) /\
    (includes (tags d) "乾的" = true <-> form = Some dry) /\
    (includes (tags d) "重口" = true <-> style d = rich) /\
    (includes (tags d) "清爽" = true <-> style d = light).
Proof.
  intros temp form richness speed d. subst d. unfold computeTags. cbn [tags style].
  destruct (0.55 <=? richness)%float;
    destruct temp as [[|]|], form as [[|]|], speed as [[|]|]; cbn;
    (split; [repeat constructor; cbn; intuition discriminate|]);
    (split; [lia|]);
    repeat split; intros; first [reflexivity | discriminate].
Qed.

Section Rethink.
Context {host : Host}.

(** X18.  "Reconsider" on the Result screen keeps the answers: it goes
    to step 0 of the Choose screen with the temperature, form, pace and
    richness as they were, and, the three questions being answered,
    reconsider followed by three times "next" is back on the Result
    screen in the same world, tags included; only the step counter has
    moved to the last step. *)
Theorem reconsider_keeps_answers :
  forall w : World,
    screen (app w) = Screen.state -> answered (app w) ->
    handleAll [ClickRethink; ClickNext; ClickNext; ClickNext] w = onApp (setChooseStep 2) w /\
    tags (derived (app (handleAll [ClickRethink; ClickNext; ClickNext; ClickNext] w))) =
      tags (derived (app w)) /\
    (let a' := app (handle ClickRethink w) in
     screen a' = Screen.choose /\ chooseStep a' = 0%Z /\
     temp a' = temp (app w) /\ form a' = form (app w) /\ speed a' = speed (app w) /\
     richness a' = richness (app w)).
Proof.
  intros [a pend urls]. destruct a as [lg sc st tm fm ri sp pt pr gs].
  unfold answered. cbn [app screen temp form speed]. intros -> (Ht & Hf & Hs).
  destruct tm as [t|]; [|contradiction].
  destruct fm as [f|]; [|contradiction].
  destruct sp as [s|]; [|contradiction].
  cbv zeta. repeat split.
Qed.

(** X19.  On the Recommend and Saved screens no control changes the
    answers: an event leaves temperature, form, pace and richness as they
    are, unless it goes Home, which resets them all.  The two long-press
    timeouts are the only exception: run on these screens they draw new
    answers and switch to the Result screen. *)
Theorem answers_read_only :
  forall (w : World) (ev : Event),
    screen (app w) = Screen.recommend \/ screen (app w) = Screen.energy ->
    let a := app w in
    let a' := app (handle ev w) in
    (temp a' = temp a /\ form a' = form a /\ speed a' = speed a /\
     richness a' = richness a) \/
    (screen a' = Screen.home /\ temp a' = None /\ form a' = None /\ speed a' = None /\
     richness a' = 0.5%float) \/
    (screen a' = Screen.state /\ answered a' /\
     ((exists src, ev = PressTimeout src) /\ pressTimer a = true \/
      (exists src, ev = LongPressRandom src))).
Proof.
  intros w ev Hs.
  destruct w as [a pend urls]. destruct a as [lg sc st tm fm ri sp pt pr gs].
  cbn [app screen pressTimer] in *. cbv zeta.
  destruct Hs as [-> | ->]; destruct ev; unfold handle;
    cbn [app screen showBack showLog pressTimer log onApp onRecommend onEnergy geoPending];
    unfold answer, openMapsNearby, getCurrentPosition, window_open;
    cbn [app screen showBack showLog pressTimer log onApp onRecommend onEnergy geoPending];
    repeat match goal with
           | |- context [match ?x with _ => _ end] => destruct x
           | |- context [if ?x then _ else _] => destruct x
           end;
    first [ left; repeat split; fail
          | right; left; repeat split; fail
          | right; right; unfold answered; cbn;
            repeat split; first [discriminate | edge] ].
Qed.

End Rethink.

Lemma reconsider_keeps_answers_witness :
  screen (app (handle (host := exampleHost) ClickBack exampleRecommend)) = Screen.state /\
  answered (app (handle (host := exampleHost) ClickBack exampleRecommend)) /\
  screen (app (handleAll (host := exampleHost)
                 [ClickRethink; ClickNext; ClickNext; ClickNext]
                 (handle (host := exampleHost) ClickBack exampleRecommend))) = Screen.state.
Proof.
  assert (Hans : answered (app (handle (host := exampleHost) ClickBack exampleRecommend))).
  { repeat split; discriminate. }
  split; [reflexivity|]. split; [exact Hans|].
  destruct (reconsider_keeps_answers (host := exampleHost)
              (handle (host := exampleHost) ClickBack exampleRecommend) eq_refl Hans)
    as (Heq & _).
  rewrite Heq. reflexivity.
Defined.

Lemma answers_read_only_witness :
  screen (app exampleRecommend) = Screen.recommend /\
  temp (app (handle (host := exampleHost) (ClickPlace 0 exampleClock) exampleRecommend)) =
    Some hot.
Proof.
  split; [reflexivity|].
  destruct (answers_read_only (host := exampleHost) exampleRecommend
              (ClickPlace 0 exampleClock) (or_introl eq_refl))
    as [(Ht & _)|[(Hhome & _)|(Hstate & _)]].
  - exact Ht.
  - discriminate Hhome.
  - discriminate Hstate.
Defined.

(** The callback of the long-press button of the Result screen, run on
    the Recommend screen: new answers, and the Result screen. *)
Example long_press_callback_on_recommend :
  let w := handle (host := exampleHost) (LongPressRandom exampleSource) exampleRecommend in
  temp (app exampleRecommend) = Some hot /\ temp (app w) = Some cold /\
  screen (app w) = Screen.state.
Proof. repeat split. Qed.
